(** * bitw0r1d: a shallow embedding of the simulation engine

    The development follows [bitw0r1d.py]: the bit-string operators
    ([string_generator], [flip], [insert], [delete], [string_edit]), the
    similarity metric ([evaluate]), the resource model ([resource_function],
    [Society.update_resource_store]) and the generation loop ([simulation]).

    Modelling conventions.
    - A Python [str] is a [list ascii]; a Python [int] is a [Z].
    - A Python [float] is the rational number it denotes ([Q]); arithmetic
      on floats is taken to be exact.  The concrete evaluations below are on
      inputs where binary64 rounding changes no comparison.
    - Exceptions are the [Err] results of an error monad; the two global
      random generators ([np.random] and [rn]) are explicit state.  The
      Mersenne Twister is not modelled: the words a generator produces
      after seeding are parameters, and the general theorems hold for all
      of them.
    - Console output and the CSV file are not modelled: they do not feed
      back into the returned frame. *)

From Stdlib Require Import ZArith QArith Qabs Qround List Ascii Bool Lia Lqa.
Import ListNotations.

Local Open Scope Z_scope.

(** ** Strings and the state of a society *)

Definition str : Type := list ascii.

Definition len (s : str) : Z := Z.of_nat (length s).

(** The attributes of a [Society] object. *)
Record society : Type := mk_society {
  space : str;
  technologies : str;
  resource_store : Q;
  initial_endowment : Q;
  is_depleted : bool
}.

(** ** Exceptions and the state-and-error monad *)

Inductive exn : Type :=
| ValueError
| ZeroDivisionError
| IndexError
| Unmodelled.

Inductive result (A : Type) : Type :=
| Ok (a : A)
| Err (e : exn).

Arguments Ok {A} a.
Arguments Err {A} e.

(** A generator is an infinite sequence of raw words together with a cursor.
    The words stand for the output of the Mersenne Twister; nothing below
    depends on what they are. *)
Record generator : Type := mk_generator {
  raw : nat -> N;
  cursor : nat
}.

Definition next_word (g : generator) : N * generator :=
  (raw g (cursor g), mk_generator (raw g) (S (cursor g))).

(** The methods of [Society], for the history of calls. *)
Inductive method : Type :=
| m_update_resource_store
| m_tradeoff
| m_ce_technologies
| m_ce_space.

(** The global state a run can touch: numpy's global generator, the
    generator of the [random] module, and a ghost history that records, for
    every call of a [Society] method by the engine, the method and the
    attributes the receiver had when the method was entered (most recent
    call first). *)
Record World : Type := mk_World {
  np_random : generator;
  rn : generator;
  calls : list (method * society)
}.

Definition M (A : Type) : Type := World -> result (A * World).

Definition ret {A : Type} (a : A) : M A := fun w => Ok (a, w).

Definition raise {A : Type} (e : exn) : M A := fun _ => Err e.

Definition bind {A B : Type} (c : M A) (k : A -> M B) : M B :=
  fun w => match c w with
           | Ok (a, w') => k a w'
           | Err e => Err e
           end.

Definition lift {A : Type} (r : result A) : M A :=
  fun w => match r with
           | Ok a => Ok (a, w)
           | Err e => Err e
           end.

Notation "x <- c ;; k" := (bind c (fun x => k))
  (at level 61, c at next level, right associativity).
Notation "c ;;; k" := (bind c (fun _ => k))
  (at level 61, right associativity).

(** ** The random primitives *)

Definition two53 : positive := 9007199254740992.

(** A uniform variate in [[0, 1)] with 53 bits, as [random.random()] and
    numpy's [random_sample] produce. *)
Definition unit_interval (word : N) : Q :=
  Z.of_N (word mod Npos two53) # two53.

Definition rn_random : M Q :=
  fun w => let (word, g) := next_word (rn w) in
           Ok (unit_interval word, mk_World (np_random w) g (calls w)).

(** [random.randint(a, b)]: an integer of [[a, b]]; an empty range raises. *)
Definition rn_randint (a b : Z) : M Z :=
  fun w => if b <? a then Err ValueError
           else let (word, g) := next_word (rn w) in
                Ok (a + Z.of_N word mod (b - a + 1),
                    mk_World (np_random w) g (calls w)).

Definition np_random_sample : M Q :=
  fun w => let (word, g) := next_word (np_random w) in
           Ok (unit_interval word, mk_World g (rn w) (calls w)).

(** [np.random.uniform(low, high)]. *)
Definition np_random_uniform (low high : Q) : M Q :=
  u <- np_random_sample ;;
  ret (low + (high - low) * u)%Q.

(** [self.randint(0, pop_size)], one draw. *)
Definition np_random_index (pop_size : nat) : M nat :=
  fun w => let (word, g) := next_word (np_random w) in
           Ok (N.to_nat word mod pop_size, mk_World g (rn w) (calls w))%nat.

(** [n] draws in sequence. *)
Fixpoint repeatM {A : Type} (n : nat) (c : M A) : M (list A) :=
  match n with
  | O => ret []
  | S n' => x <- c ;; xs <- repeatM n' c ;; ret (x :: xs)
  end.

(** The Python value passed for the parameter [replace] of
    [np.random.choice], which numpy only tests for truth. *)
Inductive pyobj : Type :=
| PyBool (b : bool)
| PyList (l : list Q).

Definition truthy (o : pyobj) : bool :=
  match o with
  | PyBool b => b
  | PyList l => negb (Nat.eqb (length l) 0)
  end.

Definition Qlt_bool (x y : Q) : bool := negb (Qle_bool y x).

Fixpoint cumsum (acc : Q) (p : list Q) : list Q :=
  match p with
  | [] => []
  | x :: p' => (acc + x)%Q :: cumsum (acc + x)%Q p'
  end.

Definition Qsum (p : list Q) : Q := fold_left Qplus p 0%Q.

(** numpy's tolerance on the sum of [p]: the square root of the machine
    epsilon, 2^-26. *)
Definition atol : Q := 1 # 67108864.

(** [cdf.searchsorted(u, side='right')]: the number of entries [<= u] of a
    non-decreasing array. *)
Definition searchsorted_right (cdf : list Q) (u : Q) : nat :=
  length (filter (fun c => Qle_bool c u) cdf).

(** [a[idx]] for an array of indices. *)
Fixpoint take {A : Type} (a : list A) (idx : list nat) : M (list A) :=
  match idx with
  | [] => ret []
  | i :: idx' =>
      match nth_error a i with
      | Some x => xs <- take a idx' ;; ret (x :: xs)
      | None => raise IndexError
      end
  end.

(** [np.random.choice(a, size, replace, p)] for a list [a] and an integer
    [size], as the legacy [RandomState.choice] does it.  Only sampling with
    replacement is modelled: both call sites of the program pass a true
    [replace]. *)
Definition np_random_choice {A : Type} (a : list A) (size : Z)
    (replace : pyobj) (p : option (list Q)) : M (list A) :=
  let pop_size := length a in
  if (Nat.eqb pop_size 0 && negb (size =? 0))%bool then raise ValueError
  else
    match p with
    | Some ps =>
        if negb (Nat.eqb (length ps) pop_size) then raise ValueError
        else if existsb (fun x => Qlt_bool x 0) ps then raise ValueError
        else if Qlt_bool atol (Qabs (Qsum ps - 1)) then raise ValueError
        else if negb (truthy replace) then raise Unmodelled
        else if size <? 0 then raise ValueError
        else
          let cdf := map (fun c => (c / Qsum ps)%Q) (cumsum 0 ps) in
          uniform_samples <- repeatM (Z.to_nat size) np_random_sample ;;
          take a (map (searchsorted_right cdf) uniform_samples)
    | None =>
        if negb (truthy replace) then raise Unmodelled
        else if size <? 0 then raise ValueError
        else
          idx <- repeatM (Z.to_nat size) (np_random_index pop_size) ;;
          take a idx
    end.

(** ** The string operators *)

(** The start of a Python slice bound on a sequence of length [n]. *)
Definition slice_bound (n : nat) (i : Z) : nat :=
  if i <? 0 then Z.to_nat (Z.max 0 (Z.of_nat n + i)) else Z.to_nat i.

(** [s[:i]] and [s[i:]]. *)
Definition slice_to (s : str) (i : Z) : str :=
  firstn (slice_bound (length s) i) s.
Definition slice_from (s : str) (i : Z) : str :=
  skipn (slice_bound (length s) i) s.

(** [s[i]] for [i >= 0]. *)
Definition index (s : str) (i : Z) : M ascii :=
  match nth_error s (Z.to_nat i) with
  | Some c => ret c
  | None => raise IndexError
  end.

(** [string_generator(p, l)].  The third positional parameter of
    [np.random.choice] is [replace]; the parameter [p] keeps its default
    [None]. *)
Definition string_generator (p : Q) (l : Z) : M str :=
  np_random_choice ["0"; "1"]%char l (PyList [p; 1 - p]%Q) None.

(** The Levenshtein distance computed by [polyleven.levenshtein]: the least
    number of single-symbol insertions, deletions and substitutions. *)
Fixpoint lev (a b : str) : nat :=
  match a with
  | [] => length b
  | x :: a' =>
      (fix lev_row (b : str) : nat :=
         match b with
         | [] => length a
         | y :: b' =>
             Nat.min (S (lev a' b))
               (Nat.min (S (lev_row b'))
                  ((if Ascii.eqb x y then 0 else 1) + lev a' b'))
         end) b
  end.

Definition ld (a b : str) : Z := Z.of_nat (lev a b).

(** [evaluate(technologies, space)]. *)
Definition evaluate (technologies space : str) : result Q :=
  let m := Z.max (len technologies) (len space) in
  if m =? 0 then Err ZeroDivisionError
  else Ok (1 - inject_Z (ld technologies space) / inject_Z m)%Q.

(** [flip(string)]. *)
Definition flip (string : str) : M str :=
  position <- rn_randint 0 (len string - 1) ;;
  c <- index string position ;;
  ret (slice_to string position
         ++ [if Ascii.eqb c "1" then "0" else "1"]%char
         ++ slice_from string (position + 1)).

(** [insert(string)]. *)
Definition insert (string : str) : M str :=
  position <- rn_randint 0 (len string) ;;
  u <- rn_random ;;
  let value := (if Qlt_bool u (1 # 2) then "0" else "1")%char in
  ret (slice_to string position ++ [value] ++ slice_from string position).

(** [delete(string)]. *)
Definition delete (string : str) : M str :=
  position <- rn_randint 0 (len string - 1) ;;
  ret (slice_to string position ++ slice_from string (position + 1)).

(** The candidate of [string_edit]: the first part of its body. *)
Definition candidate (str_1 : str) : M str :=
  p <- rn_random ;;
  if Qlt_bool p (1 # 3) then flip str_1
  else if Qlt_bool p (2 # 3) then insert str_1
  else if 1 <? len str_1 then delete str_1
  else ret str_1.

(** The selection logic of [string_edit]: the second part of its body. *)
Definition selection (str_1 new str_2 : str) (eff : Q) : M str :=
  u <- rn_random ;;
  if Qlt_bool u eff then
    e_new <- lift (evaluate new str_2) ;;
    e_old <- lift (evaluate str_1 str_2) ;;
    if Qle_bool e_new e_old then ret str_1 else ret new
  else ret new.

(** [string_edit(str_1, str_2, eff)]. *)
Definition string_edit (str_1 str_2 : str) (eff : Q) : M str :=
  new <- candidate str_1 ;;
  selection str_1 new str_2 eff.

(** [resource_function(cS, effectiveness, cT)]. *)
Definition resource_function (cS : Z) (effectiveness : Q) (cT : Z) : Q :=
  (inject_Z cS * effectiveness - inject_Z cT * (1 - effectiveness))%Q.

(** [round(x)] of a float: to the nearest integer, halves to the even one. *)
Definition py_round (x : Q) : Z :=
  let f := Qfloor x in
  match (x - inject_Z f ?= 1 # 2)%Q with
  | Lt => f
  | Gt => f + 1
  | Eq => if Z.even f then f else f + 1
  end.

(** [range(k, n)] for a natural number [k]. *)
Definition range_from (k : nat) (n : Z) : list Z :=
  map Z.of_nat (seq k (Z.to_nat (n - Z.of_nat k))).

(** ** The class [Society] *)

Module Society.

(** [Society.__init__]; [None] for a probability is Python's [None]. *)
Definition init (s_length : Z) (s_prob : option Q) (t_length : Z)
    (t_prob : option Q) (initial_endowment : Q) : M society :=
  s_prob <- match s_prob with
            | None => np_random_uniform 0 1
            | Some p => ret p
            end ;;
  t_prob <- match t_prob with
            | None => np_random_uniform 0 1
            | Some p => ret p
            end ;;
  space <- string_generator s_prob s_length ;;
  technologies <- string_generator t_prob t_length ;;
  ret (mk_society space technologies initial_endowment initial_endowment
         false).

(** [Society.update_resource_store]: the returned float and the object
    after the call. *)
Definition update_resource_store (self : society) (net_resources : Q)
    : Q * society :=
  if Qle_bool 1 net_resources then (net_resources, self)
  else
    let deficit := if Qle_bool 0 net_resources then 1%Q
                   else Qabs net_resources in
    if Qle_bool deficit (resource_store self) then
      (1%Q, mk_society (space self) (technologies self)
                       (resource_store self - deficit)%Q
                       (initial_endowment self) (is_depleted self))
    else
      let remaining := resource_store self in
      (remaining, mk_society (space self) (technologies self) 0%Q
                             (initial_endowment self) true).

(** [Society.tradeoff]. *)
Definition tradeoff (self : society) (iterations : Z) (p : Q)
    : M (list bool) :=
  np_random_choice [true; false] iterations (PyBool true)
    (Some [p; 1 - p]%Q).

(** [Society.ce_technologies]. *)
Definition ce_technologies (self : society) (technologies space : str)
    (eta : Q) : M str :=
  string_edit technologies space eta.

(** [Society.ce_space]. *)
Definition ce_space (self : society) (space technologies : str) (lambda : Q)
    : M str :=
  string_edit space technologies lambda.

End Society.

(** The assignments [s.technologies = ...] and [s.space = ...]. *)
Definition set_technologies (s : society) (x : str) : society :=
  mk_society (space s) x (resource_store s) (initial_endowment s)
    (is_depleted s).

Definition set_space (s : society) (x : str) : society :=
  mk_society x (technologies s) (resource_store s) (initial_endowment s)
    (is_depleted s).

(** A method call by the engine: the history gets the method and the
    receiver, then the body runs. *)
Definition invoke {A : Type} (m : method) (self : society) (body : M A)
    : M A :=
  fun w => body (mk_World (np_random w) (rn w) ((m, self) :: calls w)).

(** ** The simulation *)

(** The arguments of [simulation] that reach the returned frame. *)
Module Params.

Record t : Type := mk {
  seed : Z;
  limit : Z;
  generations : Z;
  s_length : Z;
  s_prob : option Q;
  t_length : Z;
  t_prob : option Q;
  eta : Q;
  lambda : Q;
  initial_endowment : Q;
  p_tradeoff : Q
}.

End Params.

(** One row of the frame, with the column names of [dataframe]. *)
Module FrameRow.

Record t : Type := mk {
  seed : Z;
  generation : Z;
  tech_complexity : Z;
  space_complexity : Z;
  effectiveness : Q;
  initial_tech : Z;
  initial_space : Z;
  eta : Q;
  lambda : Q;
  initial_endowment : Q;
  p_tradeoff : Q;
  available_resources : Q;
  resource_store : Q
}.

End FrameRow.

(** Which of the three [return] statements of [simulation] ended the run;
    the program prints a different line before each of them. *)
Inductive outcome : Type :=
| resource_depletion (gen : Z)
| complexity_limit (gen : Z)
| generations_complete.

(** The list appended to [output] for one generation. *)
Definition row (ps : Params.t) (gen : Z) (s : society) (effectiveness : Q)
    (available_resources : Q) : FrameRow.t :=
  FrameRow.mk (Params.seed ps) gen (len (technologies s)) (len (space s))
    effectiveness (Params.t_length ps) (Params.s_length ps) (Params.eta ps)
    (Params.lambda ps) (Params.initial_endowment ps) (Params.p_tradeoff ps)
    available_resources (resource_store s).

(** [net_resources = resource_function(cS=len(s.space),
    effectiveness=evaluate(s.space, s.technologies), cT=len(s.technologies))]. *)
Definition net_resources_of (s : society) : M Q :=
  e <- lift (evaluate (space s) (technologies s)) ;;
  ret (resource_function (len (space s)) e (len (technologies s))).

(** One pass of the loop [for choice in choices]. *)
Definition evolve_step (ps : Params.t) (choice : bool) (s : society)
    : M society :=
  if choice then
    x <- invoke m_ce_technologies s
           (Society.ce_technologies s (technologies s) (space s)
              (Params.eta ps)) ;;
    ret (set_technologies s x)
  else
    x <- invoke m_ce_space s
           (Society.ce_space s (space s) (technologies s)
              (Params.lambda ps)) ;;
    ret (set_space s x).

(** The loop [for choice in choices]. *)
Fixpoint evolve (ps : Params.t) (choices : list bool) (s : society)
    : M society :=
  match choices with
  | [] => ret s
  | choice :: rest => s' <- evolve_step ps choice s ;; evolve ps rest s'
  end.

(** The loop [for gen in range(1, generations)] and what follows it. *)
Fixpoint generation_loop (ps : Params.t) (gens : list Z) (s : society)
    (output : list FrameRow.t) : M (outcome * society * list FrameRow.t) :=
  match gens with
  | [] => ret (generations_complete, s, output)
  | gen :: rest =>
      net_resources <- net_resources_of s ;;
      r <- invoke m_update_resource_store s
             (ret (Society.update_resource_store s net_resources)) ;;
      let (available_resources, s) := r in
      if is_depleted s then ret (resource_depletion gen, s, output)
      else
        let iterations := if Qle_bool 1 available_resources
                          then py_round available_resources else 1 in
        s <- (if 0 <? iterations then
                choices <- invoke m_tradeoff s
                             (Society.tradeoff s iterations
                                (Params.p_tradeoff ps)) ;;
                evolve ps choices s
              else ret s) ;;
        effectiveness <- lift (evaluate (technologies s) (space s)) ;;
        let output := output ++ [row ps gen s effectiveness
                                   available_resources] in
        if Params.limit ps <=? len (technologies s)
        then ret (complexity_limit gen, s, output)
        else generation_loop ps rest s output
  end.

Section Seeding.

(** The words the two generators produce after seeding, as functions of the
    seed. *)
Variable np_words : Z -> nat -> N.
Variable rn_words : Z -> nat -> N.

(** [np.random.seed(seed)]: the seed must fit in 32 bits. *)
Definition np_random_seed (seed : Z) : M unit :=
  fun w => if ((seed <? 0) || (4294967295 <? seed))%bool then Err ValueError
           else Ok (tt, mk_World (mk_generator (np_words seed) 0) (rn w)
                          (calls w)).

(** [rn.seed(int(seed))]. *)
Definition rn_seed (seed : Z) : M unit :=
  fun w => Ok (tt, mk_World (np_random w) (mk_generator (rn_words seed) 0)
                     (calls w)).

(** Generation 0: the society and the first row. *)
Definition generation_0 (ps : Params.t) : M (society * list FrameRow.t) :=
  let output := [] in
  s <- Society.init (Params.s_length ps) (Params.s_prob ps)
         (Params.t_length ps) (Params.t_prob ps)
         (Params.initial_endowment ps) ;;
  effectiveness <- lift (evaluate (technologies s) (space s)) ;;
  net_resources <- net_resources_of s ;;
  r <- invoke m_update_resource_store s
         (ret (Society.update_resource_store s net_resources)) ;;
  let (available_resources, s) := r in
  ret (s, output ++ [row ps 0 s effectiveness available_resources]).

(** The body of [simulation], with the outcome and the final [Society]
    next to the rows. *)
Definition simulation_run (ps : Params.t)
    : M (outcome * society * list FrameRow.t) :=
  np_random_seed (Params.seed ps) ;;;
  rn_seed (Params.seed ps) ;;;
  r <- generation_0 ps ;;
  let (s, output) := r in
  generation_loop ps (range_from 1 (Params.generations ps)) s output.

(** [simulation(...)]: the rows of the returned frame. *)
Definition simulation (ps : Params.t) : M (list FrameRow.t) :=
  r <- simulation_run ps ;;
  ret (snd r).

End Seeding.

(** ** Auxiliary definitions for the statements *)

(** The value a computation returns, without the final state. *)
Definition value_of {A : Type} (r : result (A * World)) : result A :=
  match r with
  | Ok (a, _) => Ok a
  | Err e => Err e
  end.

(** [generate(p, length)] as the specification words it: symbol [i] is ['1']
    exactly when the [i]-th uniform variate of the stream is below [p]. *)
Definition generate_spec (p : Q) (length : Z) : M str :=
  if length <? 0 then raise ValueError
  else
    us <- repeatM (Z.to_nat length) np_random_sample ;;
    ret (map (fun u => if Qlt_bool u p then "1" else "0")%char us).

Definition bit (c : ascii) : Prop := c = "0"%char \/ c = "1"%char.

Definition nonempty (s : society) : Prop :=
  1 <= len (space s) /\ 1 <= len (technologies s).

Definition row_nonempty (r : FrameRow.t) : Prop :=
  1 <= FrameRow.tech_complexity r /\ 1 <= FrameRow.space_complexity r.

(** The configurations on which no library call of a run raises. *)
Definition runnable (ps : Params.t) : Prop :=
  0 <= Params.seed ps <= 4294967295
  /\ 1 <= Params.s_length ps /\ 1 <= Params.t_length ps
  /\ (0 <= Params.p_tradeoff ps)%Q /\ (Params.p_tradeoff ps <= 1)%Q.

(** Two states with the same generators, whatever their histories. *)
Definition same_generators (w w' : World) : Prop :=
  np_random w = np_random w' /\ rn w = rn w'.

Definition agree {A : Type} (r r' : result (A * World)) : Prop :=
  match r, r' with
  | Ok (a, w), Ok (a', w') => a = a' /\ same_generators w w'
  | Err e, Err e' => e = e'
  | _, _ => False
  end.

(** A computation whose result does not depend on the history. *)
Definition history_blind {A : Type} (c : M A) : Prop :=
  forall w w', same_generators w w' -> agree (c w) (c w').

(** Alignments of two strings: [edits a b n] holds when [a] can be turned
    into [b] with [n] single-symbol insertions, deletions and
    substitutions.  The Levenshtein distance is the least such [n]. *)
Inductive edits : str -> str -> nat -> Prop :=
| edits_nil : edits [] [] 0
| edits_keep x a b n : edits a b n -> edits (x :: a) (x :: b) n
| edits_substitute x y a b n : edits a b n -> edits (x :: a) (y :: b) (S n)
| edits_delete x a b n : edits a b n -> edits (x :: a) b (S n)
| edits_insert y a b n : edits a b n -> edits a (y :: b) (S n).

(** The next [n] words of a generator, and the generator after them. *)
Definition words_from (g : generator) (n : nat) : list N :=
  map (fun i => raw g (i + cursor g)%nat) (seq 0 n).

Definition advance (g : generator) (n : nat) : generator :=
  mk_generator (raw g) (n + cursor g).

(** The element of [['0', '1']] a word selects, and the number of draws
    [Society.__init__] makes for probabilities left to [None]. *)
Definition symbol_of_word (word : N) : ascii :=
  nth (N.to_nat word mod 2) ["0"; "1"]%char "0"%char.

Definition none_count (s_prob t_prob : option Q) : nat :=
  (match s_prob with Some _ => 0 | None => 1 end
   + match t_prob with Some _ => 0 | None => 1 end)%nat.

(** A row the generation loop can append when the societies it works on
    satisfy [I]: the row of some generation, made from a society that
    satisfies [I], its similarity and at least 1 of available resources. *)
Definition produced (ps : Params.t) (I : society -> Prop) (r : FrameRow.t)
    : Prop :=
  exists gen s e a,
    r = row ps gen s e a /\ I s
    /\ evaluate (technologies s) (space s) = Ok e /\ (1 <= a)%Q.

Definition bits (s : society) : Prop :=
  nonempty s /\ Forall bit (space s) /\ Forall bit (technologies s).

Fixpoint non_increasing (l : list Q) : Prop :=
  match l with
  | x :: l' =>
      match l' with
      | y :: _ => (y <= x)%Q /\ non_increasing l'
      | [] => True
      end
  | [] => True
  end.

(** From one row to the next the two lengths move, together, by at most
    the number of edits of the generation, [round(available_resources)]. *)
Fixpoint growth_bounded (tech space : Z) (rows : list FrameRow.t) : Prop :=
  match rows with
  | [] => True
  | r :: rest =>
      Z.abs (FrameRow.tech_complexity r - tech)
      + Z.abs (FrameRow.space_complexity r - space)
      <= py_round (FrameRow.available_resources r)
      /\ growth_bounded (FrameRow.tech_complexity r) (FrameRow.space_complexity r) rest
  end.

(** Concrete generators and worlds for evaluation. *)
Definition zeros : nat -> N := fun _ => 0%N.
Definition counting : nat -> N := fun n => N.of_nat n.
Definition world0 : World :=
  mk_World (mk_generator zeros 0) (mk_generator zeros 0) [].

(** What the generation loop guarantees when it is entered at generation
    [k] with [m] generations to go and the society [s], and returns the
    outcome [o], the society [s'], the new rows [new] and the new part [h]
    of the history. *)
Definition below_limit (ps : Params.t) (r : FrameRow.t) : Prop :=
  FrameRow.tech_complexity r < Params.limit ps.

Definition loop_post (ps : Params.t) (k m : nat) (s : society) (o : outcome)
    (s' : society) (new : list FrameRow.t) (h : list (method * society)) : Prop :=
  nonempty s'
  /\ (is_depleted s' = true -> resource_store s' = 0%Q)
  /\ Forall row_nonempty new
  /\ map FrameRow.generation new = map Z.of_nat (seq k (length new))
  /\ (forall e, In e h -> is_depleted (snd e) = true ->
        e = (m_update_resource_store, s) /\ s' = s)
  /\ match o with
     | generations_complete =>
         length new = m /\ Forall (below_limit ps) new
     | resource_depletion gen =>
         gen = Z.of_nat (k + length new) /\ (length new < m)%nat
         /\ is_depleted s' = true /\ Forall (below_limit ps) new
     | complexity_limit gen =>
         exists before r,
           new = before ++ [r] /\ (length new <= m)%nat
           /\ gen = FrameRow.generation r
           /\ Params.limit ps <= FrameRow.tech_complexity r
           /\ Forall (below_limit ps) before
           /\ is_depleted s' = false
     end.

(** Seeding functions for evaluation: whatever the seed, the words are
    0, 0, 0, ... or 0, 1, 2, ... *)
Definition seeded_zeros : Z -> nat -> N := fun _ => zeros.
Definition seeded_counting : Z -> nat -> N := fun _ => counting.

(** The scenario of the specification: lengths 2, every probability 0.5,
    an endowment of 100, 50 generations, a complexity limit of 20. *)
Definition scenario : Params.t :=
  Params.mk 1 20 50 2 (Some (1 # 2)) 2 (Some (1 # 2)) (1 # 2) (1 # 2) 100
    (1 # 2).


(** A configuration whose store is empty from the start, with strings of
    lengths 1 and 2: the similarity is 0 or 1/2 and the net flow is -2 or
    -1/2 at generation 0, whatever the strings are. *)
Definition no_endowment : Params.t :=
  Params.mk 1 20 3 1 (Some (1 # 2)) 2 (Some (1 # 2)) (1 # 2) (1 # 2) 0
    (1 # 2).

(** Configurations at the edges. *)
Definition one_generation : Params.t :=
  Params.mk 1 20 1 2 None 2 None (1 # 2) (1 # 2) 100 7.

Definition negative_seed : Params.t :=
  Params.mk (-1) 20 50 2 None 2 None (1 # 2) (1 # 2) 100 (1 # 2).

Definition zero_lengths : Params.t :=
  Params.mk 1 20 50 0 None 0 None (1 # 2) (1 # 2) 100 (1 # 2).

Definition p_tradeoff_2 : Params.t :=
  Params.mk 1 20 3 2 None 2 None (1 # 2) (1 # 2) 100 2.

Definition limit_1 : Params.t :=
  Params.mk 1 1 50 2 None 2 None (1 # 2) (1 # 2) 100 (1 # 2).

(** ** The parameter sweep of [model/multi.py]

    The module-level constants and the list [task_args] built for one pair
    of the grid; [path], [printing] and [write] do not reach the frame.  The
    pool that runs the tasks is not modelled. *)
Module Multi.

Definition limit : Z := 10000.
Definition generations : Z := 10000.
Definition s_length : Z := 2.
Definition s_prob : option Q := None.
Definition t_length : Z := 2.
Definition t_prob : option Q := None.
Definition eta_param : list Q :=
  [1 # 100; 5 # 100; 10 # 100; 20 # 100; 40 # 100; 50 # 100; 60 # 100;
   80 # 100; 90 # 100; 95 # 100; 99 # 100]%Q.
Definition lambda_param : list Q :=
  [1 # 100; 5 # 100; 10 # 100; 20 # 100; 40 # 100; 50 # 100; 60 # 100;
   80 # 100; 90 # 100; 95 # 100; 99 # 100]%Q.
Definition initial_endowment : Q := 100.
Definition p_tradeoff : Q := 1 # 2.

Definition task_args (eta lambda : Q) (seeds : list Z) : list Params.t :=
  map (fun seed =>
         Params.mk seed limit generations s_length s_prob t_length t_prob
           eta lambda initial_endowment p_tradeoff) seeds.

End Multi.

(** * Properties *)

(** ** The monad *)

Lemma bind_Ok {A B : Type} (c : M A) (k : A -> M B) w a w' :
  c w = Ok (a, w') -> bind c k w = k a w'.
Proof. unfold bind; intros ->; reflexivity. Qed.

Lemma bind_Err {A B : Type} (c : M A) (k : A -> M B) w e :
  c w = Err e -> bind c k w = Err e.
Proof. unfold bind; intros ->; reflexivity. Qed.

Lemma bind_inv {A B : Type} (c : M A) (k : A -> M B) w r :
  bind c k w = Ok r -> exists a w', c w = Ok (a, w') /\ k a w' = Ok r.
Proof.
  unfold bind; destruct (c w) as [[a w']|e]; intros H; [eauto|discriminate].
Qed.

(** ** Comparisons on [Q] *)

Lemma Qlt_bool_iff x y : Qlt_bool x y = true <-> (x < y)%Q.
Proof.
  unfold Qlt_bool; rewrite negb_true_iff; split; intros H.
  - apply Qnot_le_lt; intros L; apply Qle_bool_iff in L; congruence.
  - destruct (Qle_bool y x) eqn:E; [|reflexivity].
    apply Qle_bool_iff in E; exfalso; exact (Qlt_not_le _ _ H E).
Qed.

Lemma Qlt_bool_false x y : Qlt_bool x y = false <-> (y <= x)%Q.
Proof.
  unfold Qlt_bool; rewrite negb_false_iff; apply Qle_bool_iff.
Qed.

Lemma Qle_bool_false x y : Qle_bool x y = false <-> (y < x)%Q.
Proof.
  rewrite <- Qlt_bool_iff; unfold Qlt_bool.
  destruct (Qle_bool x y); simpl; intuition congruence.
Qed.

Lemma unit_interval_range word :
  (0 <= unit_interval word)%Q /\ (unit_interval word < 1)%Q.
Proof.
  assert (H : (word mod N.pos two53 < N.pos two53)%N)
    by (apply N.mod_lt; discriminate).
  unfold unit_interval, Qle, Qlt; cbn [Qnum Qden].
  generalize dependent (word mod N.pos two53)%N; intros n H.
  split; lia.
Qed.

(** ** Slices *)

Lemma slice_to_length s i :
  0 <= i <= len s -> length (slice_to s i) = Z.to_nat i.
Proof.
  unfold slice_to, slice_bound, len; intros H.
  destruct (Z.ltb_spec i 0); [lia|].
  rewrite length_firstn; lia.
Qed.

Lemma slice_from_length s i :
  0 <= i <= len s -> length (slice_from s i) = (length s - Z.to_nat i)%nat.
Proof.
  unfold slice_from, slice_bound, len; intros H.
  destruct (Z.ltb_spec i 0); [lia|].
  rewrite length_skipn; lia.
Qed.

(** ** The random primitives *)

Lemma rn_randint_Ok a b w :
  a <= b ->
  exists z w', rn_randint a b w = Ok (z, w') /\ a <= z <= b
               /\ np_random w' = np_random w /\ calls w' = calls w.
Proof.
  intros H; unfold rn_randint.
  destruct (Z.ltb_spec b a); [lia|].
  destruct (next_word (rn w)) as [word g].
  eexists; eexists; split; [reflexivity|].
  pose proof (Z.mod_pos_bound (Z.of_N word) (b - a + 1)).
  simpl; repeat split; lia.
Qed.

Lemma rn_random_Ok w :
  exists u w', rn_random w = Ok (u, w') /\ np_random w' = np_random w
               /\ calls w' = calls w.
Proof.
  unfold rn_random; destruct (next_word (rn w)) as [word g].
  eexists; eexists; repeat split.
Qed.

(** ** The mutation operators *)

Lemma index_Ok s i w :
  0 <= i < len s -> exists c, index s i w = Ok (c, w).
Proof.
  unfold index, len; intros H.
  destruct (nth_error s (Z.to_nat i)) as [c|] eqn:E.
  - exists c; reflexivity.
  - apply nth_error_None in E; lia.
Qed.

Lemma flip_Ok s w :
  1 <= len s ->
  exists s' w', flip s w = Ok (s', w') /\ length s' = length s
                /\ np_random w' = np_random w /\ calls w' = calls w.
Proof.
  intros H; unfold flip.
  destruct (rn_randint_Ok 0 (len s - 1) w) as (z & w1 & E & R & Hn & Hc);
    [lia|].
  rewrite (bind_Ok _ _ _ _ _ E).
  destruct (index_Ok s z w1) as (c & Ei); [lia|].
  rewrite (bind_Ok _ _ _ _ _ Ei).
  eexists; eexists; split; [reflexivity|].
  repeat split; try assumption.
  rewrite !length_app, slice_to_length, slice_from_length by lia.
  unfold len in *; simpl; lia.
Qed.

Lemma insert_Ok s w :
  exists s' w', insert s w = Ok (s', w') /\ length s' = S (length s)
                /\ np_random w' = np_random w /\ calls w' = calls w.
Proof.
  unfold insert.
  destruct (rn_randint_Ok 0 (len s) w) as (z & w1 & E & R & Hn & Hc);
    [unfold len; lia|].
  rewrite (bind_Ok _ _ _ _ _ E).
  destruct (rn_random_Ok w1) as (u & w2 & Eu & Hn2 & Hc2).
  rewrite (bind_Ok _ _ _ _ _ Eu).
  eexists; eexists; split; [reflexivity|].
  repeat split; try congruence.
  rewrite !length_app, slice_to_length, slice_from_length by lia.
  unfold len in *; simpl; lia.
Qed.

Lemma delete_Ok s w :
  1 <= len s ->
  exists s' w', delete s w = Ok (s', w') /\ length s' = pred (length s)
                /\ np_random w' = np_random w /\ calls w' = calls w.
Proof.
  intros H; unfold delete.
  destruct (rn_randint_Ok 0 (len s - 1) w) as (z & w1 & E & R & Hn & Hc);
    [lia|].
  rewrite (bind_Ok _ _ _ _ _ E).
  eexists; eexists; split; [reflexivity|].
  repeat split; try assumption.
  rewrite !length_app, slice_to_length, slice_from_length by lia.
  unfold len in *; lia.
Qed.

(** The contraction branch of [string_edit]: what the candidate is when the
    first draw is at least 2/3. *)
Lemma candidate_contract s w p w1 :
  rn_random w = Ok (p, w1) -> (2 # 3 <= p)%Q ->
  candidate s w = if 1 <? len s then delete s w1 else Ok (s, w1).
Proof.
  intros E H; unfold candidate.
  rewrite (bind_Ok _ _ _ _ _ E).
  assert (H3 : Qlt_bool p (1 # 3) = false).
  { apply Qlt_bool_false. apply Qle_trans with (2 # 3)%Q; [|exact H].
    unfold Qle; simpl; lia. }
  apply Qlt_bool_false in H; rewrite H3, H.
  destruct (1 <? len s); reflexivity.
Qed.

Lemma candidate_Ok s w :
  1 <= len s ->
  exists new w', candidate s w = Ok (new, w') /\ 1 <= len new
                 /\ np_random w' = np_random w /\ calls w' = calls w.
Proof.
  intros H; unfold candidate.
  destruct (rn_random_Ok w) as (p & w1 & E & Hn & Hc).
  rewrite (bind_Ok _ _ _ _ _ E).
  destruct (Qlt_bool p (1 # 3)).
  { destruct (flip_Ok s w1 H) as (s' & w' & -> & L & Hn' & Hc').
    exists s', w'; unfold len in *; repeat split; try congruence; lia. }
  destruct (Qlt_bool p (2 # 3)).
  { destruct (insert_Ok s w1) as (s' & w' & -> & L & Hn' & Hc').
    exists s', w'; unfold len in *; repeat split; try congruence; lia. }
  destruct (Z.ltb_spec 1 (len s)).
  { destruct (delete_Ok s w1 H) as (s' & w' & -> & L & Hn' & Hc').
    exists s', w'; unfold len in *; repeat split; try congruence; lia. }
  exists s, w1; repeat split; assumption.
Qed.

Lemma evaluate_Ok a b :
  1 <= len a \/ 1 <= len b ->
  evaluate a b
  = Ok (1 - inject_Z (ld a b) / inject_Z (Z.max (len a) (len b)))%Q.
Proof.
  intros H; unfold evaluate.
  destruct (Z.eqb_spec (Z.max (len a) (len b)) 0); [lia|reflexivity].
Qed.

Lemma selection_Ok str_1 new str_2 eff w :
  1 <= len str_1 -> 1 <= len new ->
  exists r w', selection str_1 new str_2 eff w = Ok (r, w')
               /\ (r = str_1 \/ r = new)
               /\ np_random w' = np_random w /\ calls w' = calls w.
Proof.
  intros H1 H2; unfold selection.
  destruct (rn_random_Ok w) as (u & w1 & E & Hn & Hc).
  rewrite (bind_Ok _ _ _ _ _ E).
  destruct (Qlt_bool u eff).
  - rewrite !evaluate_Ok by auto; unfold lift, bind.
    match goal with |- context [Qle_bool ?x ?y] => destruct (Qle_bool x y) end;
      eexists; eexists; (split; [reflexivity|]); auto.
  - eexists; eexists; (split; [reflexivity|]); auto.
Qed.

Lemma string_edit_Ok str_1 str_2 eff w :
  1 <= len str_1 ->
  exists r w', string_edit str_1 str_2 eff w = Ok (r, w') /\ 1 <= len r
               /\ np_random w' = np_random w /\ calls w' = calls w.
Proof.
  intros H; unfold string_edit.
  destruct (candidate_Ok str_1 w H) as (new & w1 & E & L & Hn & Hc).
  rewrite (bind_Ok _ _ _ _ _ E).
  destruct (selection_Ok str_1 new str_2 eff w1 H L)
    as (r & w' & -> & [->| ->] & Hn' & Hc');
    (eexists; eexists; split; [reflexivity|]; repeat split; congruence || assumption).
Qed.

(** ** The Levenshtein distance *)

Lemma lev_nil_r a : lev a [] = length a.
Proof. destruct a; reflexivity. Qed.

Lemma lev_cons x a y b :
  lev (x :: a) (y :: b)
  = Nat.min (S (lev a (y :: b)))
      (Nat.min (S (lev (x :: a) b))
         ((if Ascii.eqb x y then 0 else 1) + lev a b)).
Proof. reflexivity. Qed.

Lemma lev_sym a : forall b, lev a b = lev b a.
Proof.
  induction a as [|x a IHa]; intros b.
  - symmetry; apply lev_nil_r.
  - induction b as [|y b IHb]; [reflexivity|].
    rewrite !lev_cons, IHb, (IHa (y :: b)), (IHa b), (Ascii.eqb_sym y x).
    lia.
Qed.

Lemma lev_refl a : lev a a = 0%nat.
Proof.
  induction a as [|x a IH]; [reflexivity|].
  rewrite lev_cons, Ascii.eqb_refl, IH; lia.
Qed.

Lemma lev_upper a : forall b, (lev a b <= Nat.max (length a) (length b))%nat.
Proof.
  induction a as [|x a IHa]; intros b; [simpl; lia|].
  destruct b as [|y b]; [simpl; lia|].
  rewrite lev_cons; specialize (IHa b); simpl length.
  destruct (Ascii.eqb x y); lia.
Qed.

Lemma lev_lower a :
  forall b, (length a - length b <= lev a b
             /\ length b - length a <= lev a b)%nat.
Proof.
  induction a as [|x a IHa]; intros b; [simpl; lia|].
  induction b as [|y b IHb]; [simpl; lia|].
  rewrite lev_cons.
  pose proof (IHa (y :: b)) as H1; pose proof (IHa b) as H2.
  cbn [length] in *.
  destruct (Ascii.eqb x y); lia.
Qed.

Lemma lev_edits a : forall b, edits a b (lev a b).
Proof.
  induction a as [|x a IHa]; intros b.
  - induction b as [|y b IHb]; [constructor|].
    simpl in *; apply edits_insert, IHb.
  - induction b as [|y b IHb].
    + rewrite lev_nil_r; simpl. apply edits_delete.
      rewrite <- (lev_nil_r a); apply IHa.
    + rewrite lev_cons.
      pose proof (IHa (y :: b)) as Hd; pose proof (IHa b) as Hs.
      destruct (Nat.min_spec (S (lev a (y :: b)))
                  (Nat.min (S (lev (x :: a) b))
                     ((if Ascii.eqb x y then 0 else 1) + lev a b)))
        as [[_ ->]|[_ ->]]; [apply edits_delete, Hd|].
      destruct (Nat.min_spec (S (lev (x :: a) b))
                  ((if Ascii.eqb x y then 0 else 1) + lev a b))
        as [[_ ->]|[_ ->]]; [apply edits_insert, IHb|].
      destruct (Ascii.eqb_spec x y) as [->|_]; simpl.
      * apply edits_keep, Hs.
      * apply edits_substitute, Hs.
Qed.

Lemma lev_least a b n : edits a b n -> (lev a b <= n)%nat.
Proof.
  induction 1 as [|x a b n _ IH|x y a b n _ IH|x a b n _ IH|y a b n _ IH].
  - simpl; lia.
  - rewrite lev_cons, Ascii.eqb_refl; lia.
  - rewrite lev_cons; destruct (Ascii.eqb x y); lia.
  - destruct b as [|y b].
    + rewrite lev_nil_r in *; simpl; lia.
    + rewrite lev_cons; lia.
  - destruct a as [|x a].
    + simpl in *; lia.
    + rewrite lev_cons; lia.
Qed.

(** ** The similarity metric *)

Lemma ratio_range d m :
  0 <= d <= m -> 0 < m ->
  (0 <= inject_Z d / inject_Z m)%Q /\ (inject_Z d / inject_Z m <= 1)%Q.
Proof.
  intros Hd Hm.
  assert (Hq : (0 < inject_Z m)%Q).
  { change (inject_Z 0 < inject_Z m)%Q; rewrite <- Zlt_Qlt; exact Hm. }
  split.
  - apply Qle_shift_div_l; [exact Hq|].
    rewrite Qmult_0_l; change (inject_Z 0 <= inject_Z d)%Q.
    rewrite <- Zle_Qle; lia.
  - apply Qle_shift_div_r; [exact Hq|].
    rewrite Qmult_1_l, <- Zle_Qle; lia.
Qed.

Lemma evaluate_range a b q :
  evaluate a b = Ok q -> (0 <= q)%Q /\ (q <= 1)%Q.
Proof.
  unfold evaluate.
  destruct (Z.eqb_spec (Z.max (len a) (len b)) 0) as [|Hm]; [discriminate|].
  intros [= <-].
  destruct (ratio_range (ld a b) (Z.max (len a) (len b))) as [H0 H1].
  - pose proof (lev_upper a b); unfold ld, len; lia.
  - unfold len in *; lia.
  - split; lra.
Qed.

Lemma evaluate_sym a b : evaluate a b = evaluate b a.
Proof.
  unfold evaluate, ld; rewrite (lev_sym a b), (Z.max_comm (len a) (len b)).
  reflexivity.
Qed.

Lemma evaluate_refl a :
  1 <= len a -> exists q, evaluate a a = Ok q /\ (q == 1)%Q.
Proof.
  intros H; rewrite evaluate_Ok by auto.
  eexists; split; [reflexivity|].
  unfold ld; rewrite lev_refl; simpl Z.of_nat.
  assert (E : (inject_Z 0 / inject_Z (Z.max (len a) (len a)) == 0)%Q)
    by (unfold Qdiv; apply Qmult_0_l).
  rewrite E; reflexivity.
Qed.

(** C9: for non-empty strings, [evaluate] returns one minus the quotient of
    the Levenshtein distance (the least number of single-symbol edits turning
    one string into the other) by the larger length; it is symmetric, equal
    to 1 on identical strings, and lies between 0 and 1. *)
Theorem C9_evaluate_similarity (a b : str)
    (Ha : 1 <= len a) (Hb : 1 <= len b) :
  exists q,
    evaluate a b = Ok q
    /\ q = (1 - inject_Z (Z.of_nat (lev a b))
              / inject_Z (Z.max (len a) (len b)))%Q
    /\ edits a b (lev a b)
    /\ (forall n, edits a b n -> (lev a b <= n)%nat)
    /\ evaluate b a = evaluate a b
    /\ (exists q1, evaluate a a = Ok q1 /\ (q1 == 1)%Q)
    /\ (0 <= q)%Q /\ (q <= 1)%Q.
Proof.
  eexists; split; [apply evaluate_Ok; auto|].
  split; [reflexivity|].
  split; [apply lev_edits|].
  split; [intros n; apply lev_least|].
  split; [apply evaluate_sym|].
  split; [apply evaluate_refl; exact Ha|].
  apply (evaluate_range a b); apply evaluate_Ok; auto.
Qed.

Lemma C9_evaluate_similarity_witness :
  1 <= len ["0"; "1"; "1"]%char /\ 1 <= len ["1"; "0"]%char
  /\ evaluate ["1"; "0"]%char ["0"; "1"; "1"]%char
     = evaluate ["0"; "1"; "1"]%char ["1"; "0"]%char.
Proof.
  assert (Ha : 1 <= len ["0"; "1"; "1"]%char) by (vm_compute; discriminate).
  assert (Hb : 1 <= len ["1"; "0"]%char) by (vm_compute; discriminate).
  split; [exact Ha|]. split; [exact Hb|].
  destruct (C9_evaluate_similarity ["0"; "1"; "1"]%char ["1"; "0"]%char Ha Hb)
    as (q & _ & _ & _ & _ & H & _).
  exact H.
Defined.

(** ** The lengths of the mutated strings *)

(** C8 (amended): on a non-empty string, [flip] keeps the length, [insert]
    adds one symbol and [delete] removes one, none of them raising; in
    particular [delete] turns a string of length 1 into the empty string.
    The no-op on strings of length 1 is the contraction branch of
    [string_edit], which calls [delete] only on longer strings and otherwise
    takes the string itself as the candidate. *)
Theorem C8_operator_lengths (s : str) (w : World) (H : 1 <= len s) :
  (exists s' w', flip s w = Ok (s', w') /\ len s' = len s)
  /\ (exists s' w', insert s w = Ok (s', w') /\ len s' = len s + 1)
  /\ (exists s' w', delete s w = Ok (s', w') /\ len s' = len s - 1)
  /\ (forall p w1, rn_random w = Ok (p, w1) -> (2 # 3 <= p)%Q ->
        (1 < len s -> candidate s w = delete s w1)
        /\ (len s = 1 -> candidate s w = Ok (s, w1))).
Proof.
  split; [|split; [|split]].
  - destruct (flip_Ok s w H) as (s' & w' & E & L & _).
    exists s', w'; split; [exact E|unfold len; lia].
  - destruct (insert_Ok s w) as (s' & w' & E & L & _).
    exists s', w'; split; [exact E|unfold len; lia].
  - destruct (delete_Ok s w H) as (s' & w' & E & L & _).
    exists s', w'; split; [exact E|unfold len in *; lia].
  - intros p w1 E Hp; rewrite (candidate_contract s w p w1 E Hp).
    split; intros L.
    + destruct (Z.ltb_spec 1 (len s)); [reflexivity|lia].
    + destruct (Z.ltb_spec 1 (len s)); [lia|reflexivity].
Qed.

Lemma C8_operator_lengths_witness :
  1 <= len ["1"]%char
  /\ exists s' w', delete ["1"]%char world0 = Ok (s', w')
                   /\ len s' = len ["1"]%char - 1.
Proof.
  assert (H : 1 <= len ["1"]%char) by (vm_compute; discriminate).
  split; [exact H|].
  exact (proj1 (proj2 (proj2 (C8_operator_lengths ["1"]%char world0 H)))).
Defined.

(** The claim as it is written fails for [delete] on a string of length 1:
    the result is the empty string, not the string itself. *)
Lemma C8_delete_length_one_counterexample :
  len ["1"]%char = 1
  /\ value_of (delete ["1"]%char world0) = Ok []
  /\ value_of (delete ["1"]%char world0) <> Ok ["1"]%char.
Proof.
  split; [reflexivity|].
  split; [reflexivity|].
  vm_compute; discriminate.
Qed.

(** ** The acceptance rule *)

(** C5: on a non-empty string, [string_edit] first produces a candidate,
    then makes one more uniform draw [u].  If [u < eff] the candidate is
    returned exactly when its similarity to the reference is strictly above
    that of the original, and the original is returned otherwise; if
    [u >= eff] the candidate is returned whatever the similarities are. *)
Theorem C5_string_edit_acceptance (str_1 str_2 : str) (eff : Q) (w : World)
    (H : 1 <= len str_1) :
  exists new w1 u w2 e_new e_old r,
    candidate str_1 w = Ok (new, w1)
    /\ rn_random w1 = Ok (u, w2)
    /\ evaluate new str_2 = Ok e_new
    /\ evaluate str_1 str_2 = Ok e_old
    /\ string_edit str_1 str_2 eff w = Ok (r, w2)
    /\ ((u < eff)%Q -> (e_old < e_new)%Q -> r = new)
    /\ ((u < eff)%Q -> (e_new <= e_old)%Q -> r = str_1)
    /\ ((eff <= u)%Q -> r = new).
Proof.
  destruct (candidate_Ok str_1 w H) as (new & w1 & Ec & L & _).
  destruct (rn_random_Ok w1) as (u & w2 & Eu & _).
  pose proof (evaluate_Ok new str_2 (or_introl L)) as En.
  pose proof (evaluate_Ok str_1 str_2 (or_introl H)) as Eo.
  exists new, w1, u, w2; eexists; eexists.
  unfold string_edit, selection.
  rewrite (bind_Ok _ _ _ _ _ Ec), (bind_Ok _ _ _ _ _ Eu), En, Eo.
  unfold lift, bind.
  destruct (Qlt_bool u eff) eqn:Hu.
  - match goal with |- context [Qle_bool ?x ?y] =>
      destruct (Qle_bool x y) eqn:Hc end.
    + exists str_1.
      do 5 (split; [reflexivity || assumption|]).
      apply Qle_bool_iff in Hc; apply Qlt_bool_iff in Hu.
      split; [|split].
      * intros _ Hlt; exfalso; exact (Qlt_not_le _ _ Hlt Hc).
      * intros _ _; reflexivity.
      * intros Hge; exfalso; exact (Qlt_not_le _ _ Hu Hge).
    + exists new.
      do 5 (split; [reflexivity || assumption|]).
      split; [|split].
      * intros _ _; reflexivity.
      * intros _ Hle; apply Qle_bool_iff in Hle; congruence.
      * intros _; reflexivity.
  - exists new.
    do 5 (split; [reflexivity || assumption|]).
    split; [|split].
    + intros Hlt; apply Qlt_bool_iff in Hlt; congruence.
    + intros Hlt; apply Qlt_bool_iff in Hlt; congruence.
    + intros _; reflexivity.
Qed.

Lemma C5_string_edit_acceptance_witness :
  1 <= len ["0"; "1"]%char
  /\ exists r w', string_edit ["0"; "1"]%char ["1"; "1"]%char (1 # 2) world0
                  = Ok (r, w').
Proof.
  assert (H : 1 <= len ["0"; "1"]%char) by (vm_compute; discriminate).
  split; [exact H|].
  destruct (C5_string_edit_acceptance ["0"; "1"]%char ["1"; "1"]%char (1 # 2)
              world0 H)
    as (new & w1 & u & w2 & e_new & e_old & r & _ & _ & _ & _ & E & _).
  exists r, w2; exact E.
Defined.

(** ** The resource store *)

(** C4: on a society that is not depleted, [update_resource_store] with a
    net flow of at least 1 returns the net flow and leaves the object as it
    is; otherwise the deficit is 1 for a net flow in [[0, 1)] and the
    absolute value of a negative net flow, and either the store covers the
    deficit (the store decreases by it, 1.0 is returned, the society is not
    depleted) or it does not (the society is depleted, the store is 0 and the
    former store is returned). *)
Theorem C4_update_resource_store (self : society) (net_resources : Q)
    (H : is_depleted self = false) :
  let available := fst (Society.update_resource_store self net_resources) in
  let self' := snd (Society.update_resource_store self net_resources) in
  let store := resource_store self in
  ((1 <= net_resources)%Q ->
     available = net_resources
     /\ resource_store self' = store
     /\ is_depleted self' = false)
  /\ (forall deficit,
        ((0 <= net_resources)%Q /\ (net_resources < 1)%Q /\ deficit = 1%Q)
        \/ ((net_resources < 0)%Q /\ deficit = Qabs net_resources) ->
        ((deficit <= store)%Q ->
           available = 1%Q
           /\ resource_store self' = (store - deficit)%Q
           /\ is_depleted self' = false)
        /\ ((store < deficit)%Q ->
              available = store
              /\ resource_store self' = 0%Q
              /\ is_depleted self' = true))
  /\ space self' = space self
  /\ technologies self' = technologies self
  /\ initial_endowment self' = initial_endowment self.
Proof.
  unfold Society.update_resource_store; cbv zeta.
  destruct (Qle_bool 1 net_resources) eqn:H1.
  - split; [intros _; auto|]. split; [|auto].
    apply Qle_bool_iff in H1.
    intros deficit [(_ & Hlt & _)|(Hlt & _)]; exfalso; lra.
  - apply Qle_bool_false in H1.
    split; [intros Hge; exfalso; lra|].
    split.
    + intros deficit Hd.
      assert (Ed : (if Qle_bool 0 net_resources then 1%Q
                    else Qabs net_resources) = deficit).
      { destruct (Qle_bool 0 net_resources) eqn:H0.
        - apply Qle_bool_iff in H0.
          destruct Hd as [(_ & _ & ->)|(Hlt & _)]; [reflexivity|exfalso; lra].
        - apply Qle_bool_false in H0.
          destruct Hd as [(Hge & _)|(_ & ->)]; [exfalso; lra|reflexivity]. }
      rewrite Ed.
      destruct (Qle_bool deficit (resource_store self)) eqn:Hs.
      * apply Qle_bool_iff in Hs; simpl.
        split; [auto|]. intros Hlt; exfalso; lra.
      * apply Qle_bool_false in Hs; simpl.
        split; [|auto]. intros Hle; exfalso; lra.
    + destruct (Qle_bool _ (resource_store self)); simpl; auto.
Qed.

Lemma C4_update_resource_store_witness :
  is_depleted (mk_society ["0"]%char ["1"]%char 3 3 false) = false
  /\ space
       (snd (Society.update_resource_store
               (mk_society ["0"]%char ["1"]%char 3 3 false) (1 # 2)))
     = ["0"]%char.
Proof.
  split; [reflexivity|].
  exact (proj1 (proj2 (proj2
           (C4_update_resource_store
              (mk_society ["0"]%char ["1"]%char 3 3 false) (1 # 2)
              eq_refl)))).
Defined.

(** ** Independence from the history and from the generators' past *)

Lemma hb_ret {A : Type} (a : A) : history_blind (ret a).
Proof. intros w w' H; simpl; auto. Qed.

Lemma hb_raise {A : Type} (e : exn) : history_blind (@raise A e).
Proof. intros w w' H; reflexivity. Qed.

Lemma hb_lift {A : Type} (r : result A) : history_blind (lift r).
Proof. intros w w' H; destruct r; simpl; auto. Qed.

Lemma hb_bind {A B : Type} (c : M A) (k : A -> M B) :
  history_blind c -> (forall a, history_blind (k a)) ->
  history_blind (bind c k).
Proof.
  intros Hc Hk w w' H; unfold bind.
  specialize (Hc w w' H); unfold agree in Hc.
  destruct (c w) as [[a w1]|e], (c w') as [[a' w1']|e'];
    try contradiction.
  - destruct Hc as [<- Hs]; apply Hk, Hs.
  - exact Hc.
Qed.

Lemma hb_rn_random : history_blind rn_random.
Proof.
  intros w w' [Hn Hr]; unfold rn_random; rewrite Hr, Hn.
  destruct (next_word (rn w')); simpl; unfold same_generators; auto.
Qed.

Lemma hb_rn_randint a b : history_blind (rn_randint a b).
Proof.
  intros w w' [Hn Hr]; unfold rn_randint; rewrite Hr, Hn.
  destruct (b <? a); [reflexivity|].
  destruct (next_word (rn w')); simpl; unfold same_generators; auto.
Qed.

Lemma hb_np_random_sample : history_blind np_random_sample.
Proof.
  intros w w' [Hn Hr]; unfold np_random_sample; rewrite Hr, Hn.
  destruct (next_word (np_random w')); simpl; unfold same_generators; auto.
Qed.

Lemma hb_np_random_index n : history_blind (np_random_index n).
Proof.
  intros w w' [Hn Hr]; unfold np_random_index; rewrite Hr, Hn.
  destruct (next_word (np_random w')); simpl; unfold same_generators; auto.
Qed.

Lemma hb_invoke {A : Type} m self (body : M A) :
  history_blind body -> history_blind (invoke m self body).
Proof.
  intros Hb w w' [Hn Hr]; unfold invoke; apply Hb; split; assumption.
Qed.

(** One step of a proof that a computation is blind to the history. *)
Ltac blind_step :=
  first
    [ apply hb_ret | apply hb_raise | apply hb_lift
    | apply hb_rn_random | apply hb_rn_randint
    | apply hb_np_random_sample | apply hb_np_random_index
    | apply hb_invoke
    | apply hb_bind; [|intros ?]
    | match goal with
      | |- history_blind (if ?b then _ else _) => destruct b
      | |- history_blind (match ?x with _ => _ end) => destruct x
      | |- history_blind (let (_, _) := ?x in _) => destruct x
      end
    | assumption ].

Ltac blind := repeat blind_step.

Lemma hb_repeatM {A : Type} n (c : M A) :
  history_blind c -> history_blind (repeatM n c).
Proof. intros Hc; induction n; simpl; blind. Qed.

Lemma hb_take {A : Type} (a : list A) idx : history_blind (take a idx).
Proof. induction idx; simpl; blind. Qed.

Lemma hb_np_random_choice {A : Type} (a : list A) size replace p :
  history_blind (np_random_choice a size replace p).
Proof.
  unfold np_random_choice; blind;
    solve [apply hb_repeatM; blind | apply hb_take].
Qed.

Lemma hb_string_edit str_1 str_2 eff :
  history_blind (string_edit str_1 str_2 eff).
Proof.
  unfold string_edit, candidate, selection, flip, insert, delete, index.
  blind.
Qed.

Lemma hb_net_resources_of s : history_blind (net_resources_of s).
Proof. unfold net_resources_of; blind. Qed.

Lemma hb_evolve ps choices : forall s, history_blind (evolve ps choices s).
Proof.
  induction choices as [|choice rest IH]; intros s; simpl; [blind|].
  apply hb_bind; [|exact IH].
  unfold evolve_step, Society.ce_technologies, Society.ce_space.
  destruct choice;
    (apply hb_bind; [apply hb_invoke, hb_string_edit|intros x; apply hb_ret]).
Qed.

Lemma hb_generation_loop ps gens :
  forall s output, history_blind (generation_loop ps gens s output).
Proof.
  induction gens as [|gen rest IH]; intros s output; simpl; [blind|].
  apply hb_bind; [apply hb_net_resources_of|intros net].
  apply hb_bind; [blind|intros [available s1]].
  destruct (is_depleted s1); [blind|].
  apply hb_bind.
  - destruct (0 <? _); [|blind].
    apply hb_bind; [|intros choices; apply hb_evolve].
    apply hb_invoke, hb_np_random_choice.
  - intros s2; apply hb_bind; [blind|intros e].
    destruct (_ <=? _); [blind|apply IH].
Qed.

Lemma hb_init s_length s_prob t_length t_prob endowment :
  history_blind (Society.init s_length s_prob t_length t_prob endowment).
Proof.
  unfold Society.init, np_random_uniform, string_generator.
  destruct s_prob, t_prob; blind; apply hb_np_random_choice.
Qed.

Section Determinism.

Variable np_words : Z -> nat -> N.
Variable rn_words : Z -> nat -> N.

Lemma hb_generation_0 ps : history_blind (generation_0 ps).
Proof.
  unfold generation_0.
  apply hb_bind; [apply hb_init|intros s].
  apply hb_bind; [blind|intros e].
  apply hb_bind; [apply hb_net_resources_of|intros net].
  blind.
Qed.

Lemma simulation_run_agree ps w w' :
  agree (simulation_run np_words rn_words ps w)
        (simulation_run np_words rn_words ps w').
Proof.
  unfold simulation_run.
  match goal with
  | |- agree ((_ ;;; _ ;;; ?c) _) _ =>
      assert (Hrest : history_blind c);
      [|generalize dependent c; intros rest Hrest]
  end.
  { apply hb_bind; [apply hb_generation_0|].
    intros [s output]; apply hb_generation_loop. }
  unfold bind, np_random_seed, rn_seed.
  destruct (_ || _)%bool; [reflexivity|].
  apply Hrest; split; reflexivity.
Qed.

(** C7: the rows [simulation] returns (or the exception it raises) are a
    function of its arguments alone: two runs with the same arguments, made
    in any two states of the global generators and of the history, return
    the same rows. *)
Theorem C7_simulation_deterministic (ps : Params.t) (w w' : World) :
  value_of (simulation np_words rn_words ps w)
  = value_of (simulation np_words rn_words ps w').
Proof.
  unfold simulation, bind.
  pose proof (simulation_run_agree ps w w') as H; unfold agree in H.
  destruct (simulation_run np_words rn_words ps w) as [[r w1]|e],
           (simulation_run np_words rn_words ps w') as [[r' w1']|e'];
    try contradiction; simpl.
  - destruct H as [<- _]; reflexivity.
  - rewrite H; reflexivity.
Qed.

End Determinism.

(** ** The library calls succeed on valid arguments *)

Lemma repeatM_index_Ok n pop : forall w,
  (0 < pop)%nat ->
  exists idx w', repeatM n (np_random_index pop) w = Ok (idx, w')
                 /\ length idx = n /\ Forall (fun i => (i < pop)%nat) idx
                 /\ rn w' = rn w /\ calls w' = calls w.
Proof.
  induction n as [|n IH]; intros w Hp; simpl.
  - exists [], w; repeat split; constructor.
  - unfold bind at 1, np_random_index at 1.
    destruct (next_word (np_random w)) as [word g].
    destruct (IH (mk_World g (rn w) (calls w)) Hp)
      as (idx & w' & E & L & F & Hr & Hc).
    rewrite (bind_Ok _ _ _ _ _ E).
    eexists; eexists; split; [reflexivity|].
    simpl; repeat split; auto.
    constructor; [apply Nat.mod_upper_bound; lia|exact F].
Qed.

Lemma repeatM_sample_Ok n : forall w,
  exists us w', repeatM n np_random_sample w = Ok (us, w')
                /\ length us = n /\ Forall (fun u => (u < 1)%Q) us
                /\ rn w' = rn w /\ calls w' = calls w.
Proof.
  induction n as [|n IH]; intros w; simpl.
  - exists [], w; repeat split; constructor.
  - unfold bind at 1, np_random_sample at 1.
    destruct (next_word (np_random w)) as [word g].
    destruct (IH (mk_World g (rn w) (calls w)))
      as (us & w' & E & L & F & Hr & Hc).
    rewrite (bind_Ok _ _ _ _ _ E).
    eexists; eexists; split; [reflexivity|].
    simpl; repeat split; auto.
    constructor; [apply unit_interval_range|exact F].
Qed.

Lemma take_Ok {A : Type} (a : list A) idx w :
  Forall (fun i => (i < length a)%nat) idx ->
  exists xs, take a idx w = Ok (xs, w) /\ length xs = length idx
             /\ Forall (fun x => In x a) xs.
Proof.
  induction 1 as [|i idx Hi _ IH]; simpl.
  - exists []; repeat split; constructor.
  - destruct (nth_error a i) as [x|] eqn:E;
      [|apply nth_error_None in E; lia].
    destruct IH as (xs & Et & L & F).
    rewrite (bind_Ok _ _ _ _ _ Et).
    exists (x :: xs); simpl; repeat split; auto.
    constructor; [exact (nth_error_In _ _ E)|exact F].
Qed.

Lemma string_generator_Ok p l w :
  0 <= l ->
  exists s w', string_generator p l w = Ok (s, w') /\ len s = l
               /\ Forall bit s /\ rn w' = rn w /\ calls w' = calls w.
Proof.
  intros Hl; unfold string_generator, np_random_choice.
  cbn [length Nat.eqb andb negb truthy].
  destruct (Z.ltb_spec l 0); [lia|].
  destruct (repeatM_index_Ok (Z.to_nat l) 2 w) as (idx & w1 & E & L & F & Hr & Hc);
    [lia|].
  rewrite (bind_Ok _ _ _ _ _ E).
  destruct (take_Ok ["0"; "1"]%char idx w1 F) as (xs & Et & Lx & Fx).
  exists xs, w1; split; [exact Et|].
  repeat split; auto.
  - unfold len; lia.
  - eapply Forall_impl; [|exact Fx].
    intros c [<-|[<-|[]]]; [left|right]; reflexivity.
Qed.


(** The parameter [p] does not reach the result. *)
Lemma string_generator_ignores_p p p' l w :
  string_generator p l w = string_generator p' l w.
Proof. reflexivity. Qed.

Lemma searchsorted_tradeoff p u :
  (u < 1)%Q ->
  (searchsorted_right
     (map (fun c => (c / Qsum [p; 1 - p])%Q) (cumsum 0 [p; 1 - p]%Q)) u
   < 2)%nat.
Proof.
  intros Hu; unfold searchsorted_right, Qsum.
  cbn [cumsum map filter fold_left].
  assert (E : ((0 + p + (1 - p)) / (0 + p + (1 - p)) == 1)%Q)
    by (field; lra).
  assert (H : Qle_bool ((0 + p + (1 - p)) / (0 + p + (1 - p))) u = false)
    by (apply Qle_bool_false; rewrite E; exact Hu).
  rewrite H.
  match goal with |- context [if ?b then _ else _] => destruct b end;
    simpl; lia.
Qed.

Lemma tradeoff_Ok s iterations p w :
  (0 <= p)%Q -> (p <= 1)%Q -> 0 <= iterations ->
  exists choices w', Society.tradeoff s iterations p w = Ok (choices, w')
                     /\ rn w' = rn w /\ calls w' = calls w.
Proof.
  intros H0 H1 Hi; unfold Society.tradeoff, np_random_choice.
  cbn [length Nat.eqb andb negb truthy existsb orb].
  assert (E0 : Qlt_bool p 0 = false) by (apply Qlt_bool_false; exact H0).
  assert (E1 : Qlt_bool (1 - p) 0 = false) by (apply Qlt_bool_false; lra).
  assert (Es : Qlt_bool atol (Qabs (Qsum [p; 1 - p]%Q - 1)) = false).
  { apply Qlt_bool_false, Qabs_Qle_condition.
    unfold Qsum, atol; cbn [fold_left]; split; lra. }
  rewrite E0, E1, Es; cbn [orb].
  destruct (Z.ltb_spec iterations 0); [lia|].
  destruct (repeatM_sample_Ok (Z.to_nat iterations) w)
    as (us & w1 & E & L & F & Hr & Hc).
  rewrite (bind_Ok _ _ _ _ _ E).
  destruct (take_Ok [true; false]
              (map (searchsorted_right
                      (map (fun c => (c / Qsum [p; 1 - p])%Q)
                           (cumsum 0 [p; 1 - p]%Q))) us) w1)
    as (xs & Et & _).
  { apply Forall_map; eapply Forall_impl; [|exact F].
    intros u Hu; apply searchsorted_tradeoff, Hu. }
  exists xs, w1; auto.
Qed.

Lemma init_Ok s_length s_prob t_length t_prob endowment w :
  0 <= s_length -> 0 <= t_length ->
  exists s w', Society.init s_length s_prob t_length t_prob endowment w
               = Ok (s, w')
               /\ len (space s) = s_length
               /\ len (technologies s) = t_length
               /\ Forall bit (space s) /\ Forall bit (technologies s)
               /\ resource_store s = endowment
               /\ initial_endowment s = endowment
               /\ is_depleted s = false
               /\ calls w' = calls w.
Proof.
  intros Hs Ht; unfold Society.init.
  assert (Hp : forall (o : option Q) w0,
             exists q w1, match o with
                          | Some p => ret p
                          | None => np_random_uniform 0 1
                          end w0 = Ok (q, w1) /\ calls w1 = calls w0).
  { intros [q|] w0; [exists q, w0; split; reflexivity|].
    unfold np_random_uniform, bind, np_random_sample.
    destruct (next_word (np_random w0)); eexists; eexists.
    split; reflexivity. }
  destruct (Hp s_prob w) as (q1 & w1 & E1 & C1).
  rewrite (bind_Ok _ _ _ _ _ E1).
  destruct (Hp t_prob w1) as (q2 & w2 & E2 & C2).
  rewrite (bind_Ok _ _ _ _ _ E2).
  destruct (string_generator_Ok q1 s_length w2 Hs)
    as (sp & w3 & E3 & L3 & B3 & _ & C3).
  rewrite (bind_Ok _ _ _ _ _ E3).
  destruct (string_generator_Ok q2 t_length w3 Ht)
    as (te & w4 & E4 & L4 & B4 & _ & C4).
  rewrite (bind_Ok _ _ _ _ _ E4).
  eexists; eexists; split; [reflexivity|].
  simpl; repeat split; auto; congruence.
Qed.

(** ** The resource store *)

Lemma update_resource_store_strings self net :
  space (snd (Society.update_resource_store self net)) = space self
  /\ technologies (snd (Society.update_resource_store self net))
     = technologies self.
Proof.
  unfold Society.update_resource_store.
  destruct (Qle_bool 1 net); [split; reflexivity|].
  destruct (Qle_bool _ (resource_store self)); split; reflexivity.
Qed.

(** A depleted society with an empty store is left as it is, and a society
    that comes out depleted has an empty store. *)
Lemma update_resource_store_absorbing self net :
  (is_depleted self = true -> resource_store self = 0%Q) ->
  (is_depleted self = true ->
     snd (Society.update_resource_store self net) = self)
  /\ (is_depleted (snd (Society.update_resource_store self net)) = true ->
        resource_store (snd (Society.update_resource_store self net)) = 0%Q).
Proof.
  intros Hs; unfold Society.update_resource_store.
  destruct (Qle_bool 1 net) eqn:H1; [split; auto|].
  apply Qle_bool_false in H1.
  assert (Hd : (0 < (if Qle_bool 0 net then 1 else Qabs net))%Q).
  { destruct (Qle_bool 0 net) eqn:H0; [reflexivity|].
    apply Qle_bool_false in H0.
    rewrite Qabs_neg by lra; lra. }
  destruct (Qle_bool _ (resource_store self)) eqn:Hc; simpl.
  - apply Qle_bool_iff in Hc.
    assert (Hn : is_depleted self = true -> False).
    { intros D; rewrite (Hs D) in Hc; lra. }
    split; intros D; exfalso; auto.
  - split; [|reflexivity].
    intros D; specialize (Hs D); destruct self; simpl in *; subst.
    reflexivity.
Qed.

(** ** The edits of one generation *)

Lemma evolve_step_Ok ps choice s w :
  nonempty s ->
  exists s' w', evolve_step ps choice s w = Ok (s', w')
                /\ nonempty s'
                /\ resource_store s' = resource_store s
                /\ is_depleted s' = is_depleted s
                /\ exists m, calls w' = (m, s) :: calls w
                             /\ m <> m_update_resource_store.
Proof.
  intros [Hsp Hte]; unfold evolve_step, invoke, Society.ce_technologies,
    Society.ce_space.
  destruct choice.
  - match goal with |- context [string_edit ?a ?b ?c] =>
      destruct (string_edit_Ok a b c
                  (mk_World (np_random w) (rn w)
                     ((m_ce_technologies, s) :: calls w)) Hte)
        as (x & w' & E & L & _ & Hc) end.
    unfold bind; rewrite E.
    exists (set_technologies s x), w'; split; [reflexivity|].
    split; [split; assumption|].
    do 2 (split; [reflexivity|]).
    exists m_ce_technologies; split; [exact Hc|discriminate].
  - match goal with |- context [string_edit ?a ?b ?c] =>
      destruct (string_edit_Ok a b c
                  (mk_World (np_random w) (rn w)
                     ((m_ce_space, s) :: calls w)) Hsp)
        as (x & w' & E & L & _ & Hc) end.
    unfold bind; rewrite E.
    exists (set_space s x), w'; split; [reflexivity|].
    split; [split; assumption|].
    do 2 (split; [reflexivity|]).
    exists m_ce_space; split; [exact Hc|discriminate].
Qed.

Lemma evolve_Ok ps choices : forall s w,
  nonempty s ->
  exists s' w' h, evolve ps choices s w = Ok (s', w')
                  /\ nonempty s'
                  /\ resource_store s' = resource_store s
                  /\ is_depleted s' = is_depleted s
                  /\ calls w' = h ++ calls w
                  /\ Forall (fun e => is_depleted (snd e) = is_depleted s
                                      /\ fst e <> m_update_resource_store) h.
Proof.
  induction choices as [|choice rest IH]; intros s w Hs; simpl.
  - exists s, w, []; repeat split; try apply Hs; constructor.
  - destruct (evolve_step_Ok ps choice s w Hs)
      as (s1 & w1 & E & Hn & Hr & Hd & m & Hc & Hm).
    rewrite (bind_Ok _ _ _ _ _ E).
    destruct (IH s1 w1 Hn) as (s' & w' & h & E' & Hn' & Hr' & Hd' & Hc' & F).
    exists s', w', (h ++ [(m, s)]); split; [exact E'|].
    split; [exact Hn'|].
    split; [congruence|]. split; [congruence|].
    split; [rewrite Hc', Hc, <- app_assoc; reflexivity|].
    apply Forall_app; split.
    + eapply Forall_impl; [|exact F].
      intros e [H1 H2]; split; [congruence|exact H2].
    + constructor; [split; [reflexivity|exact Hm]|constructor].
Qed.

(** The statement [if iterations > 0: ...] of the generation loop. *)
Lemma edit_phase_Ok ps s iterations w :
  (0 <= Params.p_tradeoff ps)%Q -> (Params.p_tradeoff ps <= 1)%Q ->
  nonempty s ->
  exists s' w' h,
    (if 0 <? iterations then
       choices <- invoke m_tradeoff s
                    (Society.tradeoff s iterations (Params.p_tradeoff ps)) ;;
       evolve ps choices s
     else ret s) w = Ok (s', w')
    /\ nonempty s'
    /\ resource_store s' = resource_store s
    /\ is_depleted s' = is_depleted s
    /\ calls w' = h ++ calls w
    /\ Forall (fun e => is_depleted (snd e) = is_depleted s
                        /\ fst e <> m_update_resource_store) h.
Proof.
  intros H0 H1 Hs.
  destruct (Z.ltb_spec 0 iterations) as [Hi|Hi].
  - unfold invoke at 1.
    destruct (tradeoff_Ok s iterations (Params.p_tradeoff ps)
                (mk_World (np_random w) (rn w) ((m_tradeoff, s) :: calls w))
                H0 H1) as (choices & w1 & E & _ & Hc); [lia|].
    unfold bind at 1; rewrite E.
    destruct (evolve_Ok ps choices s w1 Hs)
      as (s' & w' & h & E' & Hn' & Hr' & Hd' & Hc' & F).
    exists s', w', (h ++ [(m_tradeoff, s)]); split; [exact E'|].
    do 3 (split; [assumption|]).
    split; [rewrite Hc', Hc, <- app_assoc; reflexivity|].
    apply Forall_app; split; [exact F|].
    constructor; [split; [reflexivity|discriminate]|constructor].
  - exists s, w, []; repeat split; try apply Hs; constructor.
Qed.

(** ** The generation loop *)

Lemma net_resources_of_Ok s w :
  nonempty s -> exists net, net_resources_of s w = Ok (net, w).
Proof.
  intros [Hs _]; unfold net_resources_of.
  rewrite evaluate_Ok by auto.
  eexists; reflexivity.
Qed.

Lemma row_fields ps gen s e a :
  FrameRow.generation (row ps gen s e a) = gen
  /\ FrameRow.tech_complexity (row ps gen s e a) = len (technologies s)
  /\ FrameRow.space_complexity (row ps gen s e a) = len (space s).
Proof. repeat split. Qed.

Lemma generation_loop_Ok ps :
  (0 <= Params.p_tradeoff ps)%Q -> (Params.p_tradeoff ps <= 1)%Q ->
  forall m k s output w,
    nonempty s ->
    (is_depleted s = true -> resource_store s = 0%Q) ->
    exists o s' new w' h,
      generation_loop ps (map Z.of_nat (seq k m)) s output w
      = Ok ((o, s', output ++ new), w')
      /\ calls w' = h ++ calls w
      /\ loop_post ps k m s o s' new h.
Proof.
  intros H0 H1; induction m as [|m IH]; intros k s output w Hs Hz.
  { exists generations_complete, s, [], w, []; simpl.
    rewrite app_nil_r; split; [reflexivity|]. split; [reflexivity|].
    unfold loop_post; simpl.
    repeat split; try apply Hs; try assumption; try constructor.
    all: contradiction. }
  cbn [seq map generation_loop].
  destruct (net_resources_of_Ok s w Hs) as (net & En).
  rewrite (bind_Ok _ _ _ _ _ En).
  unfold invoke at 1, ret at 1, bind at 1.
  destruct (update_resource_store_strings s net) as [Usp Ute].
  destruct (update_resource_store_absorbing s net Hz) as [Ufix Uzero].
  destruct (Society.update_resource_store s net) as [available s1] eqn:Eu.
  simpl in Usp, Ute, Ufix, Uzero.
  assert (Hs1 : nonempty s1) by (unfold nonempty; rewrite Usp, Ute; exact Hs).
  destruct (is_depleted s1) eqn:D1.
  { (* the store is depleted: the run stops without a row *)
    exists (resource_depletion (Z.of_nat k)), s1, [], 
      (mk_World (np_random w) (rn w)
         ((m_update_resource_store, s) :: calls w)),
      [(m_update_resource_store, s)].
    rewrite app_nil_r; split; [reflexivity|]. split; [reflexivity|].
    unfold loop_post; simpl.
    split; [exact Hs1|]. split; [intros _; apply Uzero; reflexivity|].
    split; [constructor|]. split; [reflexivity|].
    split.
    - intros e [<-|[]] D; simpl in D; split; [reflexivity|exact (Ufix D)].
    - split; [f_equal; lia|]. split; [lia|].
      split; [exact D1|constructor]. }
  assert (D0 : is_depleted s = false).
  { destruct (is_depleted s) eqn:D; [|reflexivity].
    rewrite (Ufix eq_refl) in D1; congruence. }
  (* the edits of this generation *)
  match goal with |- context [if 0 <? ?it then _ else _] =>
    destruct (edit_phase_Ok ps s1 it
                (mk_World (np_random w) (rn w)
                   ((m_update_resource_store, s) :: calls w)) H0 H1 Hs1)
      as (s2 & w2 & h2 & Ee & Hs2 & Hr2 & Hd2 & Hc2 & F2) end.
  rewrite (bind_Ok _ _ _ _ _ Ee).
  rewrite (evaluate_Ok (technologies s2) (space s2))
    by (right; apply Hs2).
  unfold lift at 1, bind at 1.
  match goal with |- context [row ps ?g s2 ?e ?a] =>
    set (r := row ps g s2 e a) end.
  assert (Nodep : forall e, In e (h2 ++ [(m_update_resource_store, s)]) ->
                            is_depleted (snd e) = true -> False).
  { intros e He D; apply in_app_or in He; destruct He as [He|[<-|[]]].
    - rewrite Forall_forall in F2; destruct (F2 e He); congruence.
    - simpl in D; congruence. }
  assert (Hrow : row_nonempty r).
  { unfold row_nonempty, r; simpl; destruct Hs2; split; assumption. }
  destruct (Z.leb_spec (Params.limit ps) (len (technologies s2))) as [Hl|Hl].
  { (* the complexity limit is reached: the run stops with the row *)
    exists (complexity_limit (Z.of_nat k)), s2, [r], w2,
      (h2 ++ [(m_update_resource_store, s)]).
    split; [reflexivity|].
    split; [rewrite Hc2, <- app_assoc; reflexivity|].
    unfold loop_post.
    split; [exact Hs2|]. split; [congruence|].
    split; [constructor; [exact Hrow|constructor]|].
    split; [reflexivity|].
    split; [intros e He D; exfalso; exact (Nodep e He D)|].
    exists [], r.
    split; [reflexivity|]. split; [simpl; lia|]. split; [reflexivity|].
    split; [exact Hl|]. split; [apply Forall_nil|congruence]. }
  (* the loop goes on *)
  destruct (IH (S k) s2 (output ++ [r]) w2 Hs2) as
    (o & s' & new & w' & h & El & Hc & P); [congruence|].
  exists o, s', (r :: new), w', (h ++ h2 ++ [(m_update_resource_store, s)]).
  split; [rewrite El, <- app_assoc; reflexivity|].
  split; [rewrite Hc, Hc2, <- !app_assoc; reflexivity|].
  destruct P as (P1 & P2 & P3 & P4 & P5 & P6).
  unfold loop_post.
  split; [exact P1|]. split; [exact P2|].
  split; [constructor; assumption|].
  split; [simpl; rewrite P4; reflexivity|].
  assert (Hbelow : below_limit ps r) by (unfold below_limit, r; simpl; lia).
  split.
  - intros e He D; exfalso.
    apply in_app_or in He; destruct He as [He|He].
    + destruct (P5 e He D) as [-> _]; simpl in D; congruence.
    + exact (Nodep e He D).
  - destruct o as [gen|gen|].
    + destruct P6 as (G & L & Dd & Fb).
      split; [rewrite G; f_equal; simpl; lia|].
      split; [simpl; lia|]. split; [exact Dd|].
      constructor; assumption.
    + destruct P6 as (before & r' & -> & L & G & Lim & Fb & Dd).
      exists (r :: before), r'.
      split; [reflexivity|]. split; [simpl in *; lia|].
      do 2 (split; [assumption|]).
      split; [constructor; assumption|exact Dd].
    + destruct P6 as (L & Fb).
      split; [simpl; lia|constructor; assumption].
Qed.

(** ** Whole runs *)

Lemma generation_0_Ok ps w :
  1 <= Params.s_length ps -> 1 <= Params.t_length ps ->
  exists s_init s0 r0 w',
    generation_0 ps w = Ok ((s0, [r0]), w')
    /\ calls w' = (m_update_resource_store, s_init) :: calls w
    /\ is_depleted s_init = false
    /\ resource_store s_init = Params.initial_endowment ps
    /\ nonempty s0
    /\ (is_depleted s0 = true -> resource_store s0 = 0%Q)
    /\ FrameRow.generation r0 = 0
    /\ FrameRow.tech_complexity r0 = Params.t_length ps
    /\ FrameRow.space_complexity r0 = Params.s_length ps
    /\ FrameRow.initial_endowment r0 = Params.initial_endowment ps.
Proof.
  intros Hs Ht; unfold generation_0.
  destruct (init_Ok (Params.s_length ps) (Params.s_prob ps)
              (Params.t_length ps) (Params.t_prob ps)
              (Params.initial_endowment ps) w)
    as (s & w1 & E & Lsp & Lte & _ & _ & Hr & _ & Hd & Hc); [lia|lia|].
  rewrite (bind_Ok _ _ _ _ _ E).
  assert (Hn : nonempty s) by (unfold nonempty; lia).
  rewrite (evaluate_Ok (technologies s) (space s)) by (right; apply Hn).
  unfold lift at 1, bind at 1.
  destruct (net_resources_of_Ok s w1 Hn) as (net & En).
  rewrite (bind_Ok _ _ _ _ _ En).
  unfold invoke, ret, bind.
  destruct (update_resource_store_strings s net) as [Usp Ute].
  destruct (update_resource_store_absorbing s net) as [_ Uzero];
    [congruence|].
  destruct (Society.update_resource_store s net) as [available s0].
  simpl in Usp, Ute, Uzero.
  exists s, s0; eexists; eexists; split; [reflexivity|].
  simpl; rewrite Hc, Ute, Usp.
  repeat split; auto; rewrite ?Usp, ?Ute; lia.
Qed.

Section Runs.

Variable np_words : Z -> nat -> N.
Variable rn_words : Z -> nat -> N.

Lemma simulation_run_Ok ps w :
  runnable ps ->
  exists s0 r0 o s' new w' h,
    simulation_run np_words rn_words ps w = Ok ((o, s', r0 :: new), w')
    /\ (exists s_init,
          calls w' = h ++ (m_update_resource_store, s_init) :: calls w
          /\ is_depleted s_init = false)
    /\ (is_depleted s0 = true -> resource_store s0 = 0%Q)
    /\ FrameRow.generation r0 = 0
    /\ FrameRow.tech_complexity r0 = Params.t_length ps
    /\ FrameRow.space_complexity r0 = Params.s_length ps
    /\ FrameRow.initial_endowment r0 = Params.initial_endowment ps
    /\ loop_post ps 1 (Z.to_nat (Params.generations ps - 1)) s0 o s' new h.
Proof.
  intros (Hseed & Hs & Ht & H0 & H1).
  unfold simulation_run, np_random_seed, rn_seed.
  unfold bind at 1.
  destruct (Z.ltb_spec (Params.seed ps) 0); [lia|].
  destruct (Z.ltb_spec 4294967295 (Params.seed ps)); [lia|].
  cbn [orb]; unfold bind at 1.
  match goal with |- context [bind (generation_0 ps) _ ?w1] =>
    destruct (generation_0_Ok ps w1 Hs Ht)
      as (s_init & s0 & r0 & w2 & E & Hc & Hd & _ & Hn & Hz & G & T & S & I0)
  end.
  rewrite (bind_Ok _ _ _ _ _ E).
  destruct (generation_loop_Ok ps H0 H1
              (Z.to_nat (Params.generations ps - 1)) 1 s0 [r0] w2 Hn Hz)
    as (o & s' & new & w' & h & El & Hc' & P).
  exists s0, r0, o, s', new, w', h.
  split; [exact El|].
  split; [exists s_init; split; [rewrite Hc', Hc; reflexivity|exact Hd]|].
  repeat (split; [assumption|]); exact P.
Qed.

End Runs.

(** ** Non-empty strings, whether or not the run returns *)

Lemma delete_singleton c w :
  value_of (delete [c] w) = Ok [].
Proof.
  unfold delete, rn_randint, bind; simpl.
  destruct (next_word (rn w)) as [word g].
  rewrite Z.mod_1_r; reflexivity.
Qed.

Lemma evolve_nonempty ps choices s w s' w' :
  nonempty s -> evolve ps choices s w = Ok (s', w') -> nonempty s'.
Proof.
  intros Hs E.
  destruct (evolve_Ok ps choices s w Hs) as (s1 & w1 & h & E1 & Hn & _).
  rewrite E in E1; injection E1 as -> ->; exact Hn.
Qed.

Lemma generation_loop_nonempty ps gens :
  forall s output w o s' rows w',
    nonempty s -> Forall row_nonempty output ->
    generation_loop ps gens s output w = Ok ((o, s', rows), w') ->
    nonempty s' /\ Forall row_nonempty rows.
Proof.
  induction gens as [|gen rest IH]; intros s output w o s' rows w' Hs Ho E.
  { injection E as _ <- <- _; split; assumption. }
  cbn [generation_loop] in E.
  apply bind_inv in E; destruct E as (net & w1 & _ & E).
  unfold invoke at 1, ret at 1, bind at 1 in E.
  destruct (update_resource_store_strings s net) as [Usp Ute].
  destruct (Society.update_resource_store s net) as [available s1].
  simpl in Usp, Ute.
  assert (Hs1 : nonempty s1) by (unfold nonempty; rewrite Usp, Ute; exact Hs).
  destruct (is_depleted s1).
  { injection E as _ <- <- _; split; assumption. }
  apply bind_inv in E; destruct E as (s2 & w2 & Ee & E).
  assert (Hs2 : nonempty s2).
  { destruct (0 <? _).
    - apply bind_inv in Ee; destruct Ee as (choices & w3 & _ & Ee).
      exact (evolve_nonempty _ _ _ _ _ _ Hs1 Ee).
    - injection Ee as <- _; exact Hs1. }
  apply bind_inv in E; destruct E as (e & w3 & _ & E).
  assert (Ho' : Forall row_nonempty
                  (output ++ [row ps gen s2 e available])).
  { apply Forall_app; split; [exact Ho|].
    constructor; [|constructor].
    unfold row_nonempty; simpl; destruct Hs2; split; assumption. }
  destruct (_ <=? _).
  - injection E as _ <- <- _; split; assumption.
  - exact (IH _ _ _ _ _ _ _ Hs2 Ho' E).
Qed.

Section Invariants.

Variable np_words : Z -> nat -> N.
Variable rn_words : Z -> nat -> N.

Lemma simulation_run_nonempty ps w o s' rows w' :
  1 <= Params.s_length ps -> 1 <= Params.t_length ps ->
  simulation_run np_words rn_words ps w = Ok ((o, s', rows), w') ->
  nonempty s' /\ Forall row_nonempty rows.
Proof.
  intros Hs Ht E; unfold simulation_run in E.
  apply bind_inv in E; destruct E as ([] & w1 & _ & E).
  apply bind_inv in E; destruct E as ([] & w2 & _ & E).
  destruct (generation_0_Ok ps w2 Hs Ht)
    as (s_init & s0 & r0 & w3 & E0 & _ & _ & _ & Hn & _ & _ & T & S & _).
  rewrite (bind_Ok _ _ _ _ _ E0) in E.
  apply (generation_loop_nonempty _ _ _ _ _ _ _ _ _ Hn) in E; [exact E|].
  constructor; [|constructor].
  unfold row_nonempty; lia.
Qed.

(** C10: in a run started with initial lengths of at least 1, both strings
    are non-empty after every generation: every row of the frame has
    [tech_complexity >= 1] and [space_complexity >= 1], and so has the
    society the run ends with; and the run does return when the seed and
    [p_tradeoff] are valid.  The reason is [string_edit], which returns a
    non-empty string on a non-empty one, although [delete] alone turns a
    string of length 1 into the empty string. *)
Theorem C10_strings_stay_nonempty (ps : Params.t) (w : World)
    (Hs : 1 <= Params.s_length ps) (Ht : 1 <= Params.t_length ps) :
  (forall o s' rows w',
     simulation_run np_words rn_words ps w = Ok ((o, s', rows), w') ->
     simulation np_words rn_words ps w = Ok (rows, w')
     /\ Forall row_nonempty rows /\ nonempty s')
  /\ (0 <= Params.seed ps <= 4294967295 ->
      (0 <= Params.p_tradeoff ps)%Q -> (Params.p_tradeoff ps <= 1)%Q ->
      exists o s' rows w',
        simulation_run np_words rn_words ps w = Ok ((o, s', rows), w'))
  /\ (forall str_1 str_2 eff w0,
        1 <= len str_1 ->
        exists r w1, string_edit str_1 str_2 eff w0 = Ok (r, w1)
                     /\ 1 <= len r)
  /\ (forall c w0, value_of (delete [c] w0) = Ok []).
Proof.
  split; [|split; [|split]].
  - intros o s' rows w' E.
    destruct (simulation_run_nonempty ps w o s' rows w' Hs Ht E) as [Hn Hr].
    split; [|split; assumption].
    unfold simulation; rewrite (bind_Ok _ _ _ _ _ E); reflexivity.
  - intros Hseed H0 H1.
    destruct (simulation_run_Ok np_words rn_words ps w)
      as (s0 & r0 & o & s' & new & w' & h & E & _).
    { unfold runnable; auto. }
    exists o, s', (r0 :: new), w'; exact E.
  - intros str_1 str_2 eff w0 H.
    destruct (string_edit_Ok str_1 str_2 eff w0 H) as (r & w1 & E & L & _).
    exists r, w1; split; assumption.
  - apply delete_singleton.
Qed.

End Invariants.

(** ** Termination *)


Section Termination.

Variable np_words : Z -> nat -> N.
Variable rn_words : Z -> nat -> N.


End Termination.

Lemma scenario_runnable : runnable scenario.
Proof.
  unfold runnable, scenario; simpl.
  repeat split; try lia; unfold Qle; simpl; lia.
Qed.


Lemma C10_strings_stay_nonempty_witness :
  1 <= Params.s_length scenario /\ 1 <= Params.t_length scenario
  /\ exists o s' rows w',
       simulation_run seeded_zeros seeded_counting scenario world0
       = Ok ((o, s', rows), w').
Proof.
  assert (Hs : 1 <= Params.s_length scenario) by (simpl; lia).
  assert (Ht : 1 <= Params.t_length scenario) by (simpl; lia).
  split; [exact Hs|]. split; [exact Ht|].
  apply (proj1 (proj2 (C10_strings_stay_nonempty seeded_zeros seeded_counting
                         scenario world0 Hs Ht))).
  - simpl; lia.
  - unfold Qle; simpl; lia.
  - unfold Qle; simpl; lia.
Defined.

(** ** The generator of strings *)

Lemma words_from_S g n :
  words_from g (S n) = raw g (cursor g) :: words_from (advance g 1) n.
Proof.
  unfold words_from, advance; cbn [seq map cursor raw Nat.add].
  f_equal.
  rewrite <- seq_shift, map_map.
  apply map_ext; intros i; f_equal; lia.
Qed.

Lemma advance_advance g n : advance (advance g 1) n = advance g (S n).
Proof. unfold advance; simpl; f_equal; lia. Qed.

Lemma advance_0 g : advance g 0 = g.
Proof. destruct g; reflexivity. Qed.

Lemma np_random_index_word pop w :
  np_random_index pop w
  = Ok ((N.to_nat (raw (np_random w) (cursor (np_random w))) mod pop)%nat,
        mk_World (advance (np_random w) 1) (rn w) (calls w)).
Proof. reflexivity. Qed.

Lemma np_random_sample_word w :
  np_random_sample w
  = Ok (unit_interval (raw (np_random w) (cursor (np_random w))),
        mk_World (advance (np_random w) 1) (rn w) (calls w)).
Proof. reflexivity. Qed.

Lemma repeatM_index_words pop n : forall w,
  repeatM n (np_random_index pop) w
  = Ok (map (fun word => (N.to_nat word mod pop)%nat)
          (words_from (np_random w) n),
        mk_World (advance (np_random w) n) (rn w) (calls w)).
Proof.
  induction n as [|n IH]; intros w.
  - simpl; rewrite advance_0; destruct w; reflexivity.
  - cbn [repeatM].
    rewrite (bind_Ok _ _ _ _ _ (np_random_index_word pop w)).
    rewrite (bind_Ok _ _ _ _ _ (IH _)).
    cbn [np_random rn calls]; rewrite words_from_S, advance_advance.
    reflexivity.
Qed.

Lemma repeatM_sample_words n : forall w,
  repeatM n np_random_sample w
  = Ok (map unit_interval (words_from (np_random w) n),
        mk_World (advance (np_random w) n) (rn w) (calls w)).
Proof.
  induction n as [|n IH]; intros w.
  - simpl; rewrite advance_0; destruct w; reflexivity.
  - cbn [repeatM].
    rewrite (bind_Ok _ _ _ _ _ (np_random_sample_word w)).
    rewrite (bind_Ok _ _ _ _ _ (IH _)).
    cbn [np_random rn calls]; rewrite words_from_S, advance_advance.
    reflexivity.
Qed.

Lemma take_bits (idx : list nat) w :
  Forall (fun i => (i < 2)%nat) idx ->
  take ["0"; "1"]%char idx w
  = Ok (map (fun i => nth i ["0"; "1"]%char "0"%char) idx, w).
Proof.
  induction 1 as [|i idx Hi _ IH]; [reflexivity|].
  cbn [take map].
  destruct i as [|[|i]]; [| |lia];
    cbn [nth_error nth]; rewrite (bind_Ok _ _ _ _ _ IH); reflexivity.
Qed.

(** What [string_generator] computes: symbol [i] is the element of
    [['0', '1']] selected by the parity of the [i]-th word of numpy's
    generator. *)
Lemma string_generator_words p l w :
  0 <= l ->
  string_generator p l w
  = Ok (map (fun word => nth (N.to_nat word mod 2) ["0"; "1"]%char "0"%char)
          (words_from (np_random w) (Z.to_nat l)),
        mk_World (advance (np_random w) (Z.to_nat l)) (rn w) (calls w)).
Proof.
  intros Hl; unfold string_generator, np_random_choice.
  cbn [length Nat.eqb andb negb truthy].
  destruct (Z.ltb_spec l 0); [lia|].
  rewrite (bind_Ok _ _ _ _ _ (repeatM_index_words 2 _ w)).
  rewrite take_bits, map_map; [reflexivity|].
  apply Forall_map, Forall_forall; intros word _.
  apply Nat.mod_upper_bound; lia.
Qed.

(** What the specification asks for: symbol [i] is ['1'] exactly when the
    [i]-th uniform variate is below [p]. *)
Lemma generate_spec_words p l w :
  0 <= l ->
  generate_spec p l w
  = Ok (map (fun word => if Qlt_bool (unit_interval word) p
                         then "1"%char else "0"%char)
          (words_from (np_random w) (Z.to_nat l)),
        mk_World (advance (np_random w) (Z.to_nat l)) (rn w) (calls w)).
Proof.
  intros Hl; unfold generate_spec.
  destruct (Z.ltb_spec l 0); [lia|].
  rewrite (bind_Ok _ _ _ _ _ (repeatM_sample_words _ w)).
  unfold ret; rewrite map_map; reflexivity.
Qed.

Lemma generate_spec_certain l w :
  0 <= l ->
  exists s w', generate_spec 1 l w = Ok (s, w') /\ len s = l
               /\ Forall (fun c => c = "1"%char) s.
Proof.
  intros Hl; unfold generate_spec.
  destruct (Z.ltb_spec l 0); [lia|].
  destruct (repeatM_sample_Ok (Z.to_nat l) w) as (us & w' & E & L & F & _).
  rewrite (bind_Ok _ _ _ _ _ E).
  eexists; eexists; split; [reflexivity|].
  split; [unfold len; rewrite length_map; lia|].
  apply Forall_map; eapply Forall_impl; [|exact F].
  intros u Hu; apply Qlt_bool_iff in Hu; rewrite Hu; reflexivity.
Qed.

(** C1 (what the code does): [string_generator] returns [l] symbols, each
    ['0'] or ['1'], but symbol [i] is selected by the parity of the [i]-th
    word of the generator and does not depend on [p], whereas the
    specification makes it ['1'] exactly when the [i]-th uniform variate is
    below [p].  With [p = 1] and a generator whose next word is 0 the code
    returns ["0"]; the specification's generator returns ['1']s only, on
    every stream. *)
Theorem C1_string_generator_ignores_p :
  (forall p l w, 0 <= l ->
     exists s w', string_generator p l w = Ok (s, w') /\ len s = l
                  /\ Forall bit s)
  /\ (forall p l w, 0 <= l ->
        value_of (string_generator p l w)
        = Ok (map (fun word =>
                     nth (N.to_nat word mod 2) ["0"; "1"]%char "0"%char)
                (words_from (np_random w) (Z.to_nat l))))
  /\ (forall p l w, 0 <= l ->
        value_of (generate_spec p l w)
        = Ok (map (fun word => if Qlt_bool (unit_interval word) p
                               then "1"%char else "0"%char)
                (words_from (np_random w) (Z.to_nat l))))
  /\ (forall p p' l w, string_generator p l w = string_generator p' l w)
  /\ (forall l w, 0 <= l ->
        exists s w', generate_spec 1 l w = Ok (s, w') /\ len s = l
                     /\ Forall (fun c => c = "1"%char) s)
  /\ value_of (string_generator 1 1 world0) = Ok ["0"%char]
  /\ value_of (generate_spec 1 1 world0) = Ok ["1"%char].
Proof.
  split; [|split; [|split; [|split; [|split; [|split]]]]].
  - intros p l w Hl.
    destruct (string_generator_Ok p l w Hl) as (s & w' & E & L & B & _).
    exists s, w'; auto.
  - intros p l w Hl; rewrite string_generator_words by exact Hl; reflexivity.
  - intros p l w Hl; rewrite generate_spec_words by exact Hl; reflexivity.
  - intros; apply string_generator_ignores_p.
  - apply generate_spec_certain.
  - reflexivity.
  - reflexivity.
Qed.

(** ** Configurations are not checked *)

Section Configuration.

Variable np_words : Z -> nat -> N.
Variable rn_words : Z -> nat -> N.



End Configuration.




(** ** Depletion at generation 0, for every generator *)

Lemma generation_loop_depleted ps gen rest s output w :
  nonempty s -> is_depleted s = true -> resource_store s = 0%Q ->
  generation_loop ps (gen :: rest) s output w
  = Ok ((resource_depletion gen, s, output),
        mk_World (np_random w) (rn w)
          ((m_update_resource_store, s) :: calls w)).
Proof.
  intros Hs D Z0; cbn [generation_loop].
  destruct (net_resources_of_Ok s w Hs) as (net & En).
  rewrite (bind_Ok _ _ _ _ _ En).
  unfold invoke, ret, bind.
  destruct (update_resource_store_absorbing s net (fun _ => Z0)) as [Ufix _].
  specialize (Ufix D).
  destruct (Society.update_resource_store s net) as [available s1].
  simpl in Ufix; subst s1; rewrite D; reflexivity.
Qed.

Lemma lengths_1_2_deplete s :
  len (space s) = 1 -> len (technologies s) = 2 ->
  resource_store s = 0%Q ->
  forall e, evaluate (space s) (technologies s) = Ok e ->
  is_depleted
    (snd (Society.update_resource_store s
            (resource_function (len (space s)) e (len (technologies s)))))
  = true.
Proof.
  intros L1 L2 Z0 e E.
  rewrite evaluate_Ok in E by lia; injection E as <-.
  pose proof (lev_lower (space s) (technologies s)) as [_ Hlo].
  pose proof (lev_upper (space s) (technologies s)) as Hup.
  unfold Society.update_resource_store, ld; rewrite L1, L2, Z0.
  unfold len in L1, L2.
  assert (Hl : lev (space s) (technologies s) = 1%nat
               \/ lev (space s) (technologies s) = 2%nat) by lia.
  destruct Hl as [-> | ->]; reflexivity.
Qed.

Lemma generation_0_depleted ps w :
  Params.s_length ps = 1 -> Params.t_length ps = 2 ->
  Params.initial_endowment ps = 0%Q ->
  exists s_init s0 r0 w',
    generation_0 ps w = Ok ((s0, [r0]), w')
    /\ nonempty s0 /\ is_depleted s0 = true /\ resource_store s0 = 0%Q
    /\ calls w' = (m_update_resource_store, s_init) :: calls w.
Proof.
  intros Ls Lt He; unfold generation_0.
  destruct (init_Ok (Params.s_length ps) (Params.s_prob ps)
              (Params.t_length ps) (Params.t_prob ps)
              (Params.initial_endowment ps) w)
    as (s & w3 & E & Lsp & Lte & _ & _ & Hr & _ & Hd & Hc); [lia|lia|].
  rewrite (bind_Ok _ _ _ _ _ E).
  rewrite Ls in Lsp; rewrite Lt in Lte; rewrite He in Hr.
  assert (Hn : nonempty s) by (unfold nonempty; lia).
  rewrite (evaluate_Ok (technologies s) (space s)) by (right; apply Hn).
  unfold lift at 1, bind at 1, net_resources_of.
  pose proof (lengths_1_2_deplete s Lsp Lte Hr) as Hdep.
  rewrite (evaluate_Ok (space s) (technologies s)) in * by (left; apply Hn).
  specialize (Hdep _ eq_refl).
  unfold lift at 1, bind at 1, ret at 1, bind at 1.
  unfold invoke at 1, ret at 1, bind at 1.
  match type of Hdep with
  | is_depleted (snd (Society.update_resource_store s ?net)) = true =>
      destruct (update_resource_store_strings s net) as [Usp Ute];
      destruct (update_resource_store_absorbing s net) as [_ Uzero];
      [congruence|];
      destruct (Society.update_resource_store s net) as [available s0]
  end.
  simpl in Hdep, Usp, Ute, Uzero.
  eexists; eexists; eexists; eexists; split; [reflexivity|].
  split; [unfold nonempty; rewrite Usp, Ute; exact Hn|].
  split; [exact Hdep|]. split; [exact (Uzero Hdep)|].
  simpl; rewrite Hc; reflexivity.
Qed.

Section DepletionAtGeneration0.

Variable np_words : Z -> nat -> N.
Variable rn_words : Z -> nat -> N.

(** Whatever the generators produce: with an empty store and initial
    lengths 1 and 2 the update of generation 0 depletes the society, and in
    a run of two generations or more the engine calls
    [update_resource_store] on the depleted society at generation 1. *)
Lemma depleted_society_updated_again ps w :
  0 <= Params.seed ps <= 4294967295 ->
  Params.s_length ps = 1 -> Params.t_length ps = 2 ->
  Params.initial_endowment ps = 0%Q ->
  2 <= Params.generations ps ->
  exists r rows w',
    simulation_run np_words rn_words ps w
    = Ok ((resource_depletion 1, r, rows), w')
    /\ is_depleted r = true
    /\ exists s_init,
         calls w' = (m_update_resource_store, r)
                    :: (m_update_resource_store, s_init) :: calls w.
Proof.
  intros Hseed Ls Lt He Hg.
  unfold simulation_run, np_random_seed, rn_seed.
  unfold bind at 1.
  destruct (Z.ltb_spec (Params.seed ps) 0); [lia|].
  destruct (Z.ltb_spec 4294967295 (Params.seed ps)); [lia|].
  cbn [orb]; unfold bind at 1.
  match goal with |- context [bind (generation_0 ps) _ ?w1] =>
    destruct (generation_0_depleted ps w1 Ls Lt He)
      as (s_init & s0 & r0 & w2 & E & Hn & Hd & Hz & Hc)
  end.
  rewrite (bind_Ok _ _ _ _ _ E).
  unfold range_from.
  destruct (Z.to_nat (Params.generations ps - Z.of_nat 1)) as [|n] eqn:En;
    [lia|].
  cbn [seq map].
  rewrite (generation_loop_depleted _ _ _ _ _ _ Hn Hd Hz).
  eexists; eexists; eexists; split; [reflexivity|].
  split; [exact Hd|].
  exists s_init; simpl; rewrite Hc; reflexivity.
Qed.

End DepletionAtGeneration0.

(** ** Depletion is absorbing *)

Section Depletion.

Variable np_words : Z -> nat -> N.
Variable rn_words : Z -> nat -> N.

(** C3 (amended): depletion is absorbing.  A run on a valid configuration
    returns; if the society it ends with is depleted, its store is 0; and
    whenever the engine entered a method of a society that was already
    depleted, the method was [update_resource_store], the store was 0 and
    the society the run ends with is that very receiver: nothing changed it
    afterwards.  So [tradeoff], [ce_technologies] and [ce_space] are never
    called on a depleted society, and [update_resource_store] leaves a
    depleted society with an empty store as it is. *)
Theorem C3_depletion_absorbing (ps : Params.t) (w : World)
    (Hr : runnable ps) :
  exists o s' rows w' h,
    simulation_run np_words rn_words ps w = Ok ((o, s', rows), w')
    /\ calls w' = h ++ calls w
    /\ (is_depleted s' = true -> resource_store s' = 0%Q)
    /\ (forall m r, In (m, r) h -> is_depleted r = true ->
          m = m_update_resource_store /\ resource_store r = 0%Q /\ s' = r)
    /\ (forall r net, is_depleted r = true -> resource_store r = 0%Q ->
          snd (Society.update_resource_store r net) = r).
Proof.
  destruct (simulation_run_Ok np_words rn_words ps w Hr)
    as (s0 & r0 & o & s' & new & w' & h & E & (s_init & Hc & Hd) & Hz & _
        & _ & _ & _ & P).
  destruct P as (_ & Pz & _ & _ & Pc & _).
  exists o, s', (r0 :: new), w', (h ++ [(m_update_resource_store, s_init)]).
  split; [exact E|].
  split; [rewrite Hc, <- app_assoc; reflexivity|].
  split; [exact Pz|]. split.
  - intros m r Hin D.
    apply in_app_or in Hin; destruct Hin as [Hin|[Hin|[]]].
    + destruct (Pc (m, r) Hin D) as [Heq ->].
      injection Heq as -> ->.
      split; [reflexivity|]. split; [exact (Hz D)|reflexivity].
    + injection Hin as _ <-; congruence.
  - intros r net D Z0.
    apply (update_resource_store_absorbing r net); [intros _; exact Z0|exact D].
Qed.

End Depletion.

Lemma no_endowment_runnable : runnable no_endowment.
Proof.
  unfold runnable, no_endowment; simpl.
  repeat split; try lia; unfold Qle; simpl; lia.
Qed.

Lemma C3_depletion_absorbing_witness :
  runnable no_endowment
  /\ exists o s' rows w',
       simulation_run seeded_zeros seeded_counting no_endowment world0
       = Ok ((o, s', rows), w')
       /\ (is_depleted s' = true -> resource_store s' = 0%Q).
Proof.
  split; [exact no_endowment_runnable|].
  destruct (C3_depletion_absorbing seeded_zeros seeded_counting no_endowment
              world0 no_endowment_runnable)
    as (o & s' & rows & w' & h & E & _ & Z0 & _).
  exists o, s', rows, w'; split; [exact E|exact Z0].
Defined.

(** The claim as it is written fails: with an empty store and strings of
    lengths 1 and 2 the society is depleted by the update of generation 0,
    and the engine calls [update_resource_store] on it again at
    generation 1. *)
Lemma C3_update_on_depleted_counterexample :
  exists rows w',
    simulation_run seeded_zeros seeded_counting no_endowment world0
    = Ok ((resource_depletion 1,
           mk_society ["0"]%char ["0"; "0"]%char 0 0 true, rows), w')
    /\ calls w'
       = [(m_update_resource_store,
           mk_society ["0"]%char ["0"; "0"]%char 0 0 true);
          (m_update_resource_store,
           mk_society ["0"]%char ["0"; "0"]%char 0 0 false)].
Proof.
  do 2 eexists.
  split; [vm_compute; reflexivity|reflexivity].
Qed.

(** * Further properties of the code *)

(** ** The shape of the mutated strings *)

Lemma firstn_exact {A : Type} (l1 l2 : list A) :
  firstn (length l1) (l1 ++ l2) = l1.
Proof. induction l1 as [|x l1 IH]; simpl; [destruct l2|rewrite IH]; reflexivity. Qed.

Lemma skipn_exact {A : Type} (l1 l2 : list A) :
  skipn (length l1) (l1 ++ l2) = l2.
Proof. induction l1 as [|x l1 IH]; simpl; [reflexivity|exact IH]. Qed.

Lemma slices_at (s : str) (i : Z) l1 l2 :
  0 <= i -> s = l1 ++ l2 -> length l1 = Z.to_nat i ->
  slice_to s i = l1 /\ slice_from s i = l2.
Proof.
  intros Hi -> L; unfold slice_to, slice_from, slice_bound.
  destruct (Z.ltb_spec i 0); [lia|].
  rewrite <- L; split; [apply firstn_exact|apply skipn_exact].
Qed.

Lemma split_at (s : str) (n : nat) :
  (n <= length s)%nat -> exists l1 l2, s = l1 ++ l2 /\ length l1 = n.
Proof.
  intros H; exists (firstn n s), (skipn n s); split.
  - symmetry; apply firstn_skipn.
  - rewrite length_firstn; lia.
Qed.

Lemma flip_shape s w :
  1 <= len s ->
  exists l1 c l2 w',
    s = l1 ++ c :: l2
    /\ flip s w = Ok (l1 ++ (if Ascii.eqb c "1" then "0" else "1")%char :: l2,
                      w')
    /\ np_random w' = np_random w /\ calls w' = calls w.
Proof.
  intros H; unfold flip.
  destruct (rn_randint_Ok 0 (len s - 1) w) as (z & w1 & E & R & Hn & Hc);
    [lia|].
  rewrite (bind_Ok _ _ _ _ _ E); unfold index, len in *.
  destruct (nth_error s (Z.to_nat z)) as [c|] eqn:En;
    [|apply nth_error_None in En; lia].
  destruct (nth_error_split _ _ En) as (l1 & l2 & Hs & L).
  unfold ret at 1, bind at 1, ret.
  destruct (slices_at s z l1 (c :: l2)) as [-> _]; [lia|exact Hs|exact L|].
  destruct (slices_at s (z + 1) (l1 ++ [c]) l2) as [_ ->];
    [lia|rewrite Hs, <- app_assoc; reflexivity
    |rewrite length_app; simpl; lia|].
  exists l1, c, l2, w1; auto.
Qed.

Lemma insert_shape s w :
  exists l1 l2 v w',
    s = l1 ++ l2 /\ bit v
    /\ insert s w = Ok (l1 ++ v :: l2, w')
    /\ np_random w' = np_random w /\ calls w' = calls w.
Proof.
  unfold insert.
  destruct (rn_randint_Ok 0 (len s) w) as (z & w1 & E & R & Hn & Hc);
    [unfold len; lia|].
  rewrite (bind_Ok _ _ _ _ _ E).
  destruct (rn_random_Ok w1) as (u & w2 & Eu & Hn2 & Hc2).
  rewrite (bind_Ok _ _ _ _ _ Eu); unfold ret.
  destruct (split_at s (Z.to_nat z)) as (l1 & l2 & Hs & L);
    [unfold len in R; lia|].
  destruct (slices_at s z l1 l2) as [-> ->]; [lia|exact Hs|exact L|].
  exists l1, l2; eexists; exists w2.
  split; [exact Hs|]. split; [|split; [reflexivity|split; congruence]].
  destruct (Qlt_bool u (1 # 2)); [left|right]; reflexivity.
Qed.

Lemma delete_shape s w :
  1 <= len s ->
  exists l1 c l2 w',
    s = l1 ++ c :: l2
    /\ delete s w = Ok (l1 ++ l2, w')
    /\ np_random w' = np_random w /\ calls w' = calls w.
Proof.
  intros H; unfold delete.
  destruct (rn_randint_Ok 0 (len s - 1) w) as (z & w1 & E & R & Hn & Hc);
    [lia|].
  rewrite (bind_Ok _ _ _ _ _ E); unfold len in *; unfold ret.
  destruct (nth_error s (Z.to_nat z)) as [c|] eqn:En;
    [|apply nth_error_None in En; lia].
  destruct (nth_error_split _ _ En) as (l1 & l2 & Hs & L).
  destruct (slices_at s z l1 (c :: l2)) as [-> _]; [lia|exact Hs|exact L|].
  destruct (slices_at s (z + 1) (l1 ++ [c]) l2) as [_ ->];
    [lia|rewrite Hs, <- app_assoc; reflexivity
    |rewrite length_app; simpl; lia|].
  exists l1, c, l2, w1; auto.
Qed.

(** ** One operator, one edit *)

Lemma edits_refl a : edits a a 0.
Proof. induction a; constructor; assumption. Qed.

Lemma edits_prefix l a b n : edits a b n -> edits (l ++ a) (l ++ b) n.
Proof. intros H; induction l; simpl; [exact H|constructor; exact IHl]. Qed.

Lemma lev_zero a : forall b, lev a b = 0%nat -> a = b.
Proof.
  induction a as [|x a IH]; intros b H.
  - destruct b; [reflexivity|discriminate].
  - destruct b as [|y b]; [discriminate|].
    rewrite lev_cons in H.
    destruct (Ascii.eqb_spec x y) as [->|_]; [|lia].
    f_equal; apply IH; lia.
Qed.

Lemma lev_one a b : edits a b 1 -> a <> b -> lev a b = 1%nat.
Proof.
  intros He Hn; pose proof (lev_least _ _ _ He).
  destruct (lev a b) as [|[|n]] eqn:E; [|reflexivity|lia].
  exfalso; exact (Hn (lev_zero _ _ E)).
Qed.

Lemma app_length_neq {A : Type} (a b : list A) :
  length a <> length b -> a <> b.
Proof. intros H ->; exact (H eq_refl). Qed.

Lemma flip_one_edit s w :
  1 <= len s ->
  exists s' w', flip s w = Ok (s', w') /\ lev s s' = 1%nat
                /\ (Forall bit s -> Forall bit s')
                /\ np_random w' = np_random w /\ calls w' = calls w.
Proof.
  intros H.
  destruct (flip_shape s w H) as (l1 & c & l2 & w' & -> & E & Hn & Hc).
  eexists; exists w'; split; [exact E|].
  split; [|split; [|split; assumption]].
  - apply lev_one.
    + apply edits_prefix, edits_substitute, edits_refl.
    + intros Heq; apply app_inv_head in Heq; injection Heq as Heq.
      destruct (Ascii.eqb_spec c "1"%char) as [->|Hne];
        [discriminate|congruence].
  - intros F; apply Forall_app in F; destruct F as [F1 F2].
    apply Forall_app; split; [exact F1|].
    inversion F2; subst; constructor; [|assumption].
    destruct (Ascii.eqb c "1"); [left|right]; reflexivity.
Qed.

Lemma insert_one_edit s w :
  exists s' w', insert s w = Ok (s', w') /\ lev s s' = 1%nat
                /\ (Forall bit s -> Forall bit s')
                /\ np_random w' = np_random w /\ calls w' = calls w.
Proof.
  destruct (insert_shape s w) as (l1 & l2 & v & w' & -> & Hv & E & Hn & Hc).
  eexists; exists w'; split; [exact E|].
  split; [|split; [|split; assumption]].
  - apply lev_one.
    + apply edits_prefix, edits_insert, edits_refl.
    + apply app_length_neq; rewrite !length_app; simpl; lia.
  - intros F; apply Forall_app in F; destruct F as [F1 F2].
    apply Forall_app; split; [exact F1|constructor; assumption].
Qed.

Lemma delete_one_edit s w :
  1 <= len s ->
  exists s' w', delete s w = Ok (s', w') /\ lev s s' = 1%nat
                /\ (Forall bit s -> Forall bit s')
                /\ np_random w' = np_random w /\ calls w' = calls w.
Proof.
  intros H.
  destruct (delete_shape s w H) as (l1 & c & l2 & w' & -> & E & Hn & Hc).
  eexists; exists w'; split; [exact E|].
  split; [|split; [|split; assumption]].
  - apply lev_one.
    + apply edits_prefix, edits_delete, edits_refl.
    + apply app_length_neq; rewrite !length_app; simpl; lia.
  - intros F; apply Forall_app in F; destruct F as [F1 F2].
    apply Forall_app; split; [exact F1|inversion F2; assumption].
Qed.

Lemma candidate_one_edit s w :
  1 <= len s ->
  exists new w', candidate s w = Ok (new, w')
                 /\ (lev s new <= 1)%nat
                 /\ (Forall bit s -> Forall bit new)
                 /\ np_random w' = np_random w /\ calls w' = calls w.
Proof.
  intros H; unfold candidate.
  destruct (rn_random_Ok w) as (p & w1 & E & Hn & Hc).
  rewrite (bind_Ok _ _ _ _ _ E).
  destruct (Qlt_bool p (1 # 3)).
  { destruct (flip_one_edit s w1 H) as (s' & w' & -> & L & B & Hn' & Hc').
    exists s', w'; repeat split; try congruence; auto; lia. }
  destruct (Qlt_bool p (2 # 3)).
  { destruct (insert_one_edit s w1) as (s' & w' & -> & L & B & Hn' & Hc').
    exists s', w'; repeat split; try congruence; auto; lia. }
  destruct (Z.ltb_spec 1 (len s)).
  { destruct (delete_one_edit s w1 H) as (s' & w' & -> & L & B & Hn' & Hc').
    exists s', w'; repeat split; try congruence; auto; lia. }
  exists s, w1; repeat split; auto.
  rewrite lev_refl; lia.
Qed.

Lemma rn_random_range w u w' :
  rn_random w = Ok (u, w') -> (0 <= u)%Q /\ (u < 1)%Q.
Proof.
  unfold rn_random; destruct (next_word (rn w)) as [word g].
  intros [= <- _]; apply unit_interval_range.
Qed.

(** X1: on a non-empty string each of [flip], [insert] and [delete] returns
    a string at Levenshtein distance exactly 1 from its argument: one
    substitution, one insertion, one deletion; none returns its argument. *)
Theorem X1_operators_one_edit (s : str) (w : World) (H : 1 <= len s) :
  (exists s' w', flip s w = Ok (s', w') /\ lev s s' = 1%nat /\ s' <> s)
  /\ (exists s' w', insert s w = Ok (s', w') /\ lev s s' = 1%nat /\ s' <> s)
  /\ (exists s' w', delete s w = Ok (s', w') /\ lev s s' = 1%nat /\ s' <> s).
Proof.
  assert (Hne : forall s', lev s s' = 1%nat -> s' <> s).
  { intros s' L ->; rewrite lev_refl in L; discriminate. }
  split; [|split].
  - destruct (flip_one_edit s w H) as (s' & w' & E & L & _).
    exists s', w'; auto.
  - destruct (insert_one_edit s w) as (s' & w' & E & L & _).
    exists s', w'; auto.
  - destruct (delete_one_edit s w H) as (s' & w' & E & L & _).
    exists s', w'; auto.
Qed.

Lemma X1_operators_one_edit_witness :
  1 <= len ["0"; "1"]%char
  /\ exists s' w', flip ["0"; "1"]%char world0 = Ok (s', w')
                   /\ lev ["0"; "1"]%char s' = 1%nat
                   /\ s' <> ["0"; "1"]%char.
Proof.
  assert (H : 1 <= len ["0"; "1"]%char) by (vm_compute; discriminate).
  split; [exact H|].
  exact (proj1 (X1_operators_one_edit ["0"; "1"]%char world0 H)).
Defined.

(** X2: the operators keep the alphabet: on a non-empty string made of
    ['0'] and ['1'] only, [flip], [insert], [delete] and [string_edit]
    return strings made of ['0'] and ['1'] only. *)
Theorem X2_alphabet_closed (s str_2 : str) (eff : Q) (w : World)
    (H : 1 <= len s) (Hb : Forall bit s) :
  (exists s' w', flip s w = Ok (s', w') /\ Forall bit s')
  /\ (exists s' w', insert s w = Ok (s', w') /\ Forall bit s')
  /\ (exists s' w', delete s w = Ok (s', w') /\ Forall bit s')
  /\ (exists s' w', string_edit s str_2 eff w = Ok (s', w')
                    /\ Forall bit s').
Proof.
  split; [|split; [|split]].
  - destruct (flip_one_edit s w H) as (s' & w' & E & _ & B & _).
    exists s', w'; auto.
  - destruct (insert_one_edit s w) as (s' & w' & E & _ & B & _).
    exists s', w'; auto.
  - destruct (delete_one_edit s w H) as (s' & w' & E & _ & B & _).
    exists s', w'; auto.
  - unfold string_edit.
    destruct (candidate_one_edit s w H) as (new & w1 & E & L & B & _).
    rewrite (bind_Ok _ _ _ _ _ E).
    assert (Hl : 1 <= len new).
    { destruct (candidate_Ok s w H) as (n' & w1' & E' & Hl & _).
      rewrite E in E'; injection E' as <- _; exact Hl. }
    destruct (selection_Ok s new str_2 eff w1 H Hl)
      as (r & w' & -> & [->| ->] & _); eexists; eexists; (split; [reflexivity|auto]).
Qed.

Lemma X2_alphabet_closed_witness :
  1 <= len ["0"; "1"]%char /\ Forall bit ["0"; "1"]%char
  /\ exists s' w', string_edit ["0"; "1"]%char ["1"]%char (1 # 2) world0
                   = Ok (s', w')
                   /\ Forall bit s'.
Proof.
  assert (H : 1 <= len ["0"; "1"]%char) by (vm_compute; discriminate).
  assert (Hb : Forall bit ["0"; "1"]%char).
  { constructor; [left; reflexivity|].
    constructor; [right; reflexivity|constructor]. }
  split; [exact H|]. split; [exact Hb|].
  exact (proj2 (proj2 (proj2
           (X2_alphabet_closed ["0"; "1"]%char ["1"]%char (1 # 2) world0
              H Hb)))).
Defined.

(** X3: on the empty string [flip] and [delete] raise [ValueError] (the
    range of positions is empty) and [insert] returns a string of one
    symbol.  So [string_edit] on the empty string raises [ValueError] when
    its first draw selects [flip], and raises [ZeroDivisionError] when the
    reference is empty too, the contraction branch is taken and the
    candidate is evaluated. *)
Theorem X3_operators_on_empty (w : World) :
  flip [] w = Err ValueError
  /\ delete [] w = Err ValueError
  /\ (exists v w', insert [] w = Ok ([v], w') /\ bit v)
  /\ (forall str_2 eff p w1,
        rn_random w = Ok (p, w1) -> (p < 1 # 3)%Q ->
        string_edit [] str_2 eff w = Err ValueError)
  /\ (forall eff p w1 u w2,
        rn_random w = Ok (p, w1) -> (2 # 3 <= p)%Q ->
        rn_random w1 = Ok (u, w2) -> (u < eff)%Q ->
        string_edit [] [] eff w = Err ZeroDivisionError).
Proof.
  split; [reflexivity|]. split; [reflexivity|].
  split; [|split].
  - destruct (insert_shape [] w) as (l1 & l2 & v & w' & Hs & Hv & E & _).
    symmetry in Hs; apply app_eq_nil in Hs; destruct Hs as [-> ->].
    exists v, w'; split; assumption.
  - intros str_2 eff p w1 E Hp; unfold string_edit, candidate.
    apply bind_Err; rewrite (bind_Ok _ _ _ _ _ E).
    apply Qlt_bool_iff in Hp; rewrite Hp; reflexivity.
  - intros eff p w1 u w2 E Hp Eu Hu; unfold string_edit.
    rewrite (bind_Ok _ _ _ _ _ (eq_trans (candidate_contract [] w p w1 E Hp)
                                  eq_refl)).
    unfold selection; rewrite (bind_Ok _ _ _ _ _ Eu).
    apply Qlt_bool_iff in Hu; rewrite Hu; reflexivity.
Qed.

(** X4: one call of [string_edit] on a non-empty string moves it by at most
    one edit: the result is at Levenshtein distance at most 1 from the
    argument, its length differs by at most 1 and is at least 1, and numpy's
    generator is not used. *)
Theorem X4_string_edit_one_edit (str_1 str_2 : str) (eff : Q) (w : World)
    (H : 1 <= len str_1) :
  exists r w',
    string_edit str_1 str_2 eff w = Ok (r, w')
    /\ (lev str_1 r <= 1)%nat
    /\ len str_1 - 1 <= len r <= len str_1 + 1
    /\ 1 <= len r
    /\ np_random w' = np_random w.
Proof.
  unfold string_edit.
  destruct (candidate_one_edit str_1 w H) as (new & w1 & E & L & _ & Hn & _).
  rewrite (bind_Ok _ _ _ _ _ E).
  assert (Hl : 1 <= len new).
  { destruct (candidate_Ok str_1 w H) as (n' & w1' & E' & Hl & _).
    rewrite E in E'; injection E' as <- _; exact Hl. }
  destruct (selection_Ok str_1 new str_2 eff w1 H Hl)
    as (r & w' & -> & Hr & Hn' & _).
  exists r, w'; split; [reflexivity|].
  assert (Lr : (lev str_1 r <= 1)%nat).
  { destruct Hr as [->| ->]; [rewrite lev_refl; lia|exact L]. }
  split; [exact Lr|].
  pose proof (lev_lower str_1 r) as [L1 L2].
  split; [unfold len; lia|].
  split; [destruct Hr as [->| ->]; assumption|congruence].
Qed.

Lemma X4_string_edit_one_edit_witness :
  1 <= len ["0"]%char
  /\ exists r w', string_edit ["0"]%char ["1"; "1"]%char (1 # 2) world0
                  = Ok (r, w')
                  /\ (lev ["0"]%char r <= 1)%nat.
Proof.
  assert (H : 1 <= len ["0"]%char) by (vm_compute; discriminate).
  split; [exact H|].
  destruct (X4_string_edit_one_edit ["0"]%char ["1"; "1"]%char (1 # 2) world0
              H) as (r & w' & E & L & _).
  exists r, w'; split; [exact E|exact L].
Defined.

(** X5: with [eff >= 1] every call of [string_edit] on a non-empty string
    selects: the similarity of the result to the reference is never below
    that of the argument, and it is strictly above whenever the result is
    not the argument itself. *)
Theorem X5_string_edit_selective (str_1 str_2 : str) (eff : Q) (w : World)
    (H : 1 <= len str_1) (He : (1 <= eff)%Q) :
  exists r w' e_old e_new,
    string_edit str_1 str_2 eff w = Ok (r, w')
    /\ evaluate str_1 str_2 = Ok e_old
    /\ evaluate r str_2 = Ok e_new
    /\ (e_old <= e_new)%Q
    /\ (r <> str_1 -> (e_old < e_new)%Q).
Proof.
  unfold string_edit, selection.
  destruct (candidate_Ok str_1 w H) as (new & w1 & E & L & _).
  rewrite (bind_Ok _ _ _ _ _ E).
  destruct (rn_random_Ok w1) as (u & w2 & Eu & _).
  rewrite (bind_Ok _ _ _ _ _ Eu).
  destruct (rn_random_range _ _ _ Eu) as [_ Hu].
  assert (Hlt : Qlt_bool u eff = true) by (apply Qlt_bool_iff; lra).
  rewrite Hlt.
  pose proof (evaluate_Ok new str_2 (or_introl L)) as En.
  pose proof (evaluate_Ok str_1 str_2 (or_introl H)) as Eo.
  rewrite En, Eo; unfold lift, bind.
  match goal with |- context [Qle_bool ?x ?y] =>
    destruct (Qle_bool x y) eqn:Hc end.
  - exists str_1, w2; eexists; eexists.
    split; [reflexivity|]. split; [reflexivity|].
    split; [first [reflexivity|exact Eo]|].
    split; [apply Qle_refl|intros Hne; exfalso; exact (Hne eq_refl)].
  - exists new, w2; eexists; eexists.
    split; [reflexivity|]. split; [reflexivity|].
    split; [first [reflexivity|exact En]|].
    apply Qle_bool_false in Hc.
    split; [apply Qlt_le_weak; exact Hc|intros _; exact Hc].
Qed.

Lemma X5_string_edit_selective_witness :
  1 <= len ["0"; "1"]%char /\ (1 <= 1)%Q
  /\ exists r w', string_edit ["0"; "1"]%char ["1"; "1"]%char 1 world0
                  = Ok (r, w').
Proof.
  assert (H : 1 <= len ["0"; "1"]%char) by (vm_compute; discriminate).
  assert (He : (1 <= 1)%Q) by (vm_compute; discriminate).
  split; [exact H|]. split; [exact He|].
  destruct (X5_string_edit_selective ["0"; "1"]%char ["1"; "1"]%char 1 world0
              H He) as (r & w' & e1 & e2 & E & _).
  exists r, w'; exact E.
Defined.

Lemma selection_drift str_1 new str_2 eff w :
  (eff <= 0)%Q ->
  selection str_1 new str_2 eff w = (rn_random ;;; ret new) w.
Proof.
  intros He; unfold selection, bind.
  destruct (rn_random w) as [[u w1]|e] eqn:Eu; [|reflexivity].
  destruct (rn_random_range _ _ _ Eu) as [Hu _].
  assert (Hlt : Qlt_bool u eff = false) by (apply Qlt_bool_false; lra).
  rewrite Hlt; reflexivity.
Qed.

(** X6: with [eff <= 0] [string_edit] never evaluates anything: it returns
    the candidate after one more draw, so its result does not depend on the
    reference and no [ZeroDivisionError] can come from an empty one. *)
Theorem X6_string_edit_drift (str_1 : str) (eff : Q) (w : World)
    (He : (eff <= 0)%Q) :
  value_of (string_edit str_1 [] eff w) = value_of (candidate str_1 w)
  /\ forall str_2 str_2',
       string_edit str_1 str_2 eff w = string_edit str_1 str_2' eff w.
Proof.
  assert (Hs : forall str_2,
             string_edit str_1 str_2 eff w
             = (new <- candidate str_1 ;; rn_random ;;; ret new) w).
  { intros str_2; unfold string_edit.
    destruct (candidate str_1 w) as [[new w1]|e] eqn:Ec.
    - rewrite !(bind_Ok _ _ _ _ _ Ec); apply selection_drift, He.
    - rewrite !(bind_Err _ _ _ _ Ec); reflexivity. }
  split.
  - rewrite Hs.
    destruct (candidate str_1 w) as [[new w1]|e] eqn:Ec.
    + rewrite (bind_Ok _ _ _ _ _ Ec).
      destruct (rn_random_Ok w1) as (u & w2 & Eu & _).
      rewrite (bind_Ok _ _ _ _ _ Eu); reflexivity.
    + rewrite (bind_Err _ _ _ _ Ec); reflexivity.
  - intros str_2 str_2'; rewrite !Hs; reflexivity.
Qed.

Lemma X6_string_edit_drift_witness :
  (0 <= 0)%Q
  /\ value_of (string_edit [] [] 0 world0) = value_of (candidate [] world0).
Proof.
  assert (He : (0 <= 0)%Q) by (vm_compute; discriminate).
  split; [exact He|].
  exact (proj1 (X6_string_edit_drift [] 0 world0 He)).
Defined.

(** ** More on the similarity *)

Lemma evaluate_inv a b q :
  evaluate a b = Ok q ->
  0 < Z.max (len a) (len b)
  /\ q = (1 - inject_Z (ld a b) / inject_Z (Z.max (len a) (len b)))%Q.
Proof.
  unfold evaluate.
  destruct (Z.eqb_spec (Z.max (len a) (len b)) 0); [discriminate|].
  intros [= <-]; split; [unfold len in *; lia|reflexivity].
Qed.

Lemma evaluate_scaled a b q :
  evaluate a b = Ok q ->
  (q * inject_Z (Z.max (len a) (len b))
   == inject_Z (Z.max (len a) (len b)) - inject_Z (ld a b))%Q.
Proof.
  intros E; apply evaluate_inv in E; destruct E as [Hm ->].
  field.
  intros H0; change 0%Q with (inject_Z 0) in H0.
  apply (proj1 (inject_Z_injective _ _)) in H0; lia.
Qed.

(** X7: [evaluate] returns 1 exactly on identical strings. *)
Theorem X7_evaluate_one_iff_equal (a b : str) (q : Q)
    (H : evaluate a b = Ok q) :
  (q == 1)%Q <-> a = b.
Proof.
  pose proof (evaluate_scaled a b q H) as Hs.
  destruct (evaluate_inv a b q H) as [Hm _].
  assert (Hq : (0 < inject_Z (Z.max (len a) (len b)))%Q).
  { change 0%Q with (inject_Z 0); rewrite <- Zlt_Qlt; exact Hm. }
  split.
  - intros H1; rewrite H1 in Hs.
    assert (Hd : (inject_Z (ld a b) == inject_Z 0)%Q)
      by (change (inject_Z 0) with 0%Q; lra).
    apply (proj1 (inject_Z_injective _ _)) in Hd.
    apply lev_zero; unfold ld in Hd; lia.
  - intros ->.
    assert (Hd : (inject_Z (ld b b) == 0)%Q)
      by (unfold ld; rewrite lev_refl; reflexivity).
    rewrite Hd in Hs.
    apply (Qmult_inj_r _ _ (inject_Z (Z.max (len b) (len b)))); lra.
Qed.

Lemma X7_evaluate_one_iff_equal_witness :
  evaluate ["0"; "1"]%char ["0"; "1"]%char = Ok (2 # 2)%Q
  /\ ((2 # 2 == 1)%Q <-> ["0"; "1"]%char = ["0"; "1"]%char).
Proof.
  assert (H : evaluate ["0"; "1"]%char ["0"; "1"]%char = Ok (2 # 2)%Q)
    by reflexivity.
  split; [exact H|].
  exact (X7_evaluate_one_iff_equal _ _ _ H).
Defined.


(** ** The resource model *)

(** X9: for lengths [cS, cT >= 0] and an effectiveness in [[0, 1]],
    [resource_function] lies between [-cT] and [cS]; it is [cS] at
    effectiveness 1 and [-cT] at effectiveness 0, and it does not decrease
    when the effectiveness grows. *)
Theorem X9_resource_function_bounds (cS cT : Z) (e : Q)
    (HS : 0 <= cS) (HT : 0 <= cT) (H0 : (0 <= e)%Q) (H1 : (e <= 1)%Q) :
  (- inject_Z cT <= resource_function cS e cT)%Q
  /\ (resource_function cS e cT <= inject_Z cS)%Q
  /\ (resource_function cS 1 cT == inject_Z cS)%Q
  /\ (resource_function cS 0 cT == - inject_Z cT)%Q
  /\ (forall e', (e <= e')%Q ->
        (resource_function cS e cT <= resource_function cS e' cT)%Q).
Proof.
  assert (QS : (0 <= inject_Z cS)%Q)
    by (change 0%Q with (inject_Z 0); rewrite <- Zle_Qle; exact HS).
  assert (QT : (0 <= inject_Z cT)%Q)
    by (change 0%Q with (inject_Z 0); rewrite <- Zle_Qle; exact HT).
  unfold resource_function.
  generalize dependent (inject_Z cS); generalize dependent (inject_Z cT).
  intros t QT s QS.
  split; [nra|]. split; [nra|]. split; [ring|]. split; [ring|].
  intros e' He; nra.
Qed.

Lemma X9_resource_function_bounds_witness :
  0 <= 2 /\ 0 <= 3 /\ (0 <= 1 # 2)%Q /\ (1 # 2 <= 1)%Q
  /\ (resource_function 2 (1 # 2) 3 <= inject_Z 2)%Q.
Proof.
  assert (HS : 0 <= 2) by lia.
  assert (HT : 0 <= 3) by lia.
  assert (H0 : (0 <= 1 # 2)%Q) by (vm_compute; discriminate).
  assert (H1 : (1 # 2 <= 1)%Q) by (vm_compute; discriminate).
  do 4 (split; [assumption|]).
  exact (proj1 (proj2 (X9_resource_function_bounds 2 3 (1 # 2) HS HT H0 H1))).
Defined.

Lemma update_available self net :
  is_depleted (snd (Society.update_resource_store self net)) = false ->
  (1 <= fst (Society.update_resource_store self net))%Q
  /\ is_depleted self = false.
Proof.
  unfold Society.update_resource_store.
  destruct (Qle_bool 1 net) eqn:H1.
  - apply Qle_bool_iff in H1; simpl; auto.
  - destruct (Qle_bool _ (resource_store self)); simpl;
      [intros ->; split; [lra|reflexivity]|discriminate].
Qed.

Lemma update_store_bounds self net :
  (0 <= resource_store self)%Q ->
  (0 <= resource_store (snd (Society.update_resource_store self net)))%Q
  /\ (resource_store (snd (Society.update_resource_store self net))
      <= resource_store self)%Q.
Proof.
  intros H0; unfold Society.update_resource_store.
  destruct (Qle_bool 1 net) eqn:H1; [simpl; split; lra|].
  apply Qle_bool_false in H1.
  assert (Hd : (0 < (if Qle_bool 0 net then 1 else Qabs net))%Q).
  { destruct (Qle_bool 0 net) eqn:Hn; [reflexivity|].
    apply Qle_bool_false in Hn; rewrite Qabs_neg by lra; lra. }
  destruct (Qle_bool _ (resource_store self)) eqn:Hc; simpl.
  - apply Qle_bool_iff in Hc; split; lra.
  - split; lra.
Qed.

(** X10: [update_resource_store] on a non-negative store keeps the store
    non-negative and never raises it; whenever the society is not depleted
    after the call, at least 1 is returned; and [is_depleted] is never reset:
    a depleted society stays depleted. *)
Theorem X10_store_bounds (self : society) (net_resources : Q)
    (H0 : (0 <= resource_store self)%Q) :
  let available := fst (Society.update_resource_store self net_resources) in
  let self' := snd (Society.update_resource_store self net_resources) in
  (0 <= resource_store self')%Q
  /\ (resource_store self' <= resource_store self)%Q
  /\ (is_depleted self' = false -> (1 <= available)%Q)
  /\ (0 <= available)%Q
  /\ (is_depleted self = true -> is_depleted self' = true).
Proof.
  cbv zeta.
  destruct (update_store_bounds self net_resources H0) as [B0 B1].
  split; [exact B0|]. split; [exact B1|].
  split; [intros D; apply (update_available self net_resources D)|].
  split.
  - unfold Society.update_resource_store.
    destruct (Qle_bool 1 net_resources) eqn:H1.
    + apply Qle_bool_iff in H1; simpl; lra.
    + destruct (Qle_bool _ (resource_store self)); simpl; lra.
  - intros D.
    destruct (is_depleted (snd (Society.update_resource_store self
                                  net_resources))) eqn:D'; [reflexivity|].
    destruct (update_available self net_resources D'); congruence.
Qed.

Lemma X10_store_bounds_witness :
  (0 <= resource_store (mk_society ["0"]%char ["1"]%char 3 3 false))%Q
  /\ (resource_store
        (snd (Society.update_resource_store
                (mk_society ["0"]%char ["1"]%char 3 3 false) (-(1 # 2))))
      <= 3)%Q.
Proof.
  assert (H0 : (0 <= resource_store
                      (mk_society ["0"]%char ["1"]%char 3 3 false))%Q)
    by (vm_compute; discriminate).
  split; [exact H0|].
  exact (proj1 (proj2 (X10_store_bounds _ (-(1 # 2)) H0))).
Defined.

(** X11: a negative store (a negative endowment) is not refused: any net
    flow below 1 depletes the society at once, the negative store is what
    is returned as available resources, and the store is reset to 0, that
    is, raised. *)
Theorem X11_negative_store (self : society) (net_resources : Q)
    (Hs : (resource_store self < 0)%Q) (Hn : (net_resources < 1)%Q) :
  Society.update_resource_store self net_resources
  = (resource_store self,
     mk_society (space self) (technologies self) 0 (initial_endowment self)
       true).
Proof.
  unfold Society.update_resource_store.
  apply Qle_bool_false in Hn; rewrite Hn.
  assert (Hd : (0 < (if Qle_bool 0 net_resources then 1
                     else Qabs net_resources))%Q).
  { destruct (Qle_bool 0 net_resources) eqn:H0; [reflexivity|].
    apply Qle_bool_false in H0; rewrite Qabs_neg by lra; lra. }
  assert (Hc : Qle_bool (if Qle_bool 0 net_resources then 1
                         else Qabs net_resources) (resource_store self)
               = false) by (apply Qle_bool_false; lra).
  rewrite Hc; reflexivity.
Qed.

Lemma X11_negative_store_witness :
  (resource_store (mk_society ["0"]%char ["1"]%char (-5) (-5) false) < 0)%Q
  /\ (0 < 1)%Q
  /\ fst (Society.update_resource_store
            (mk_society ["0"]%char ["1"]%char (-5) (-5) false) 0)
     = (-5)%Q.
Proof.
  assert (Hs : (resource_store
                  (mk_society ["0"]%char ["1"]%char (-5) (-5) false) < 0)%Q)
    by reflexivity.
  assert (Hn : (0 < 1)%Q) by reflexivity.
  split; [exact Hs|]. split; [exact Hn|].
  rewrite (X11_negative_store _ 0 Hs Hn); reflexivity.
Defined.

(** ** The allocation of the edits *)

Lemma take_nth {A : Type} (a : list A) (d : A) (idx : list nat) w :
  Forall (fun i => (i < length a)%nat) idx ->
  take a idx w = Ok (map (fun i => nth i a d) idx, w).
Proof.
  induction 1 as [|i idx Hi _ IH]; [reflexivity|].
  cbn [take map].
  destruct (nth_error a i) as [x|] eqn:E;
    [|apply nth_error_None in E; lia].
  rewrite (bind_Ok _ _ _ _ _ IH); unfold ret.
  rewrite (nth_error_nth _ _ d E); reflexivity.
Qed.

Lemma Qle_bool_ext x x' y : (x == x')%Q -> Qle_bool x y = Qle_bool x' y.
Proof.
  intros H.
  destruct (Qle_bool x y) eqn:E1, (Qle_bool x' y) eqn:E2; try reflexivity.
  - apply Qle_bool_iff in E1; apply Qle_bool_false in E2; lra.
  - apply Qle_bool_false in E1; apply Qle_bool_iff in E2; lra.
Qed.

Lemma searchsorted_tradeoff_value p u :
  (u < 1)%Q ->
  nth (searchsorted_right
         (map (fun c => (c / Qsum [p; 1 - p])%Q) (cumsum 0 [p; 1 - p]%Q)) u)
      [true; false] true
  = Qlt_bool u p.
Proof.
  intros Hu; unfold searchsorted_right, Qsum.
  cbn [cumsum map filter fold_left].
  assert (E1 : ((0 + p + (1 - p)) / (0 + p + (1 - p)) == 1)%Q)
    by (field; lra).
  assert (E0 : ((0 + p) / (0 + p + (1 - p)) == p)%Q) by (field; lra).
  assert (H1 : Qle_bool ((0 + p + (1 - p)) / (0 + p + (1 - p))) u = false)
    by (apply Qle_bool_false; rewrite E1; exact Hu).
  rewrite H1, (Qle_bool_ext _ _ u E0); unfold Qlt_bool.
  destruct (Qle_bool p u); reflexivity.
Qed.

Lemma words_below_1 g n :
  Forall (fun u => (u < 1)%Q) (map unit_interval (words_from g n)).
Proof.
  apply Forall_map, Forall_forall; intros word _.
  apply unit_interval_range.
Qed.

Lemma tradeoff_words s iterations p w :
  (0 <= p)%Q -> (p <= 1)%Q -> 0 <= iterations ->
  Society.tradeoff s iterations p w
  = Ok (map (fun word => Qlt_bool (unit_interval word) p)
          (words_from (np_random w) (Z.to_nat iterations)),
        mk_World (advance (np_random w) (Z.to_nat iterations)) (rn w)
          (calls w)).
Proof.
  intros H0 H1 Hi.
  unfold Society.tradeoff, np_random_choice.
  cbn [length Nat.eqb andb negb truthy existsb orb].
  assert (E0 : Qlt_bool p 0 = false) by (apply Qlt_bool_false; exact H0).
  assert (E1 : Qlt_bool (1 - p) 0 = false) by (apply Qlt_bool_false; lra).
  assert (Es : Qlt_bool atol (Qabs (Qsum [p; 1 - p]%Q - 1)) = false).
  { apply Qlt_bool_false, Qabs_Qle_condition.
    unfold Qsum, atol; cbn [fold_left]; split; lra. }
  rewrite E0, E1, Es; cbn [orb].
  destruct (Z.ltb_spec iterations 0); [lia|].
  rewrite (bind_Ok _ _ _ _ _ (repeatM_sample_words _ w)).
  rewrite (take_nth _ true).
  - rewrite !map_map; f_equal; f_equal.
    apply map_ext; intros word.
    apply searchsorted_tradeoff_value, unit_interval_range.
  - apply Forall_map; eapply Forall_impl; [|apply words_below_1].
    intros u Hu; apply searchsorted_tradeoff, Hu.
Qed.

(** X12: for [p] in [[0, 1]] and [iterations >= 0], [tradeoff] returns
    exactly [iterations] choices; choice [i] is [True] exactly when the
    [i]-th uniform variate of numpy's generator is below [p]; the generator
    advances by [iterations] draws and the generator of [random] is not
    touched.  So [p = 1] gives [True] only and [p = 0] gives [False] only. *)
Theorem X12_tradeoff_choices (s : society) (iterations : Z) (p : Q)
    (w : World)
    (H0 : (0 <= p)%Q) (H1 : (p <= 1)%Q) (Hi : 0 <= iterations) :
  let choices :=
    map (fun word => Qlt_bool (unit_interval word) p)
        (words_from (np_random w) (Z.to_nat iterations)) in
  Society.tradeoff s iterations p w
  = Ok (choices,
        mk_World (advance (np_random w) (Z.to_nat iterations)) (rn w)
          (calls w))
  /\ Z.of_nat (length choices) = iterations
  /\ ((p == 1)%Q -> Forall (fun c => c = true) choices)
  /\ ((p == 0)%Q -> Forall (fun c => c = false) choices).
Proof.
  cbv zeta; split; [|split; [|split]].
  - apply tradeoff_words; assumption.
  - unfold words_from; rewrite !length_map, length_seq; lia.
  - intros Hp; apply Forall_map, Forall_forall; intros word _.
    apply Qlt_bool_iff; rewrite Hp; apply unit_interval_range.
  - intros Hp; apply Forall_map, Forall_forall; intros word _.
    apply Qlt_bool_false; rewrite Hp; apply unit_interval_range.
Qed.

Lemma X12_tradeoff_choices_witness :
  (0 <= 1 # 2)%Q /\ (1 # 2 <= 1)%Q /\ 0 <= 3
  /\ value_of (Society.tradeoff (mk_society [] [] 0 0 false) 3 (1 # 2) world0)
     = Ok [true; true; true].
Proof.
  assert (H0 : (0 <= 1 # 2)%Q) by (vm_compute; discriminate).
  assert (H1 : (1 # 2 <= 1)%Q) by (vm_compute; discriminate).
  assert (Hi : 0 <= 3) by lia.
  do 3 (split; [assumption|]).
  rewrite (proj1 (X12_tradeoff_choices (mk_society [] [] 0 0 false) 3 (1 # 2)
                    world0 H0 H1 Hi)).
  reflexivity.
Defined.

Lemma tradeoff_out_of_range s iterations p w :
  (p < 0)%Q \/ (1 < p)%Q ->
  Society.tradeoff s iterations p w = Err ValueError.
Proof.
  unfold Society.tradeoff, np_random_choice.
  cbn [length Nat.eqb andb negb truthy existsb orb].
  intros [Hp|Hp].
  - apply Qlt_bool_iff in Hp; rewrite Hp; reflexivity.
  - assert (E : Qlt_bool (1 - p) 0 = true) by (apply Qlt_bool_iff; lra).
    rewrite E, orb_true_r; reflexivity.
Qed.

(** X13: [tradeoff] refuses a [p] outside [[0, 1]] and a negative number of
    iterations with [ValueError], whatever the generator holds. *)
Theorem X13_tradeoff_errors (s : society) (iterations : Z) (p : Q)
    (w : World) :
  ((p < 0)%Q \/ (1 < p)%Q ->
     Society.tradeoff s iterations p w = Err ValueError)
  /\ ((0 <= p)%Q -> (p <= 1)%Q -> iterations < 0 ->
      Society.tradeoff s iterations p w = Err ValueError).
Proof.
  split; [apply tradeoff_out_of_range|].
  unfold Society.tradeoff, np_random_choice.
  cbn [length Nat.eqb andb negb truthy existsb orb].
  - intros H0 H1 Hi.
    assert (E0 : Qlt_bool p 0 = false) by (apply Qlt_bool_false; exact H0).
    assert (E1 : Qlt_bool (1 - p) 0 = false) by (apply Qlt_bool_false; lra).
    assert (Es : Qlt_bool atol (Qabs (Qsum [p; 1 - p]%Q - 1)) = false).
    { apply Qlt_bool_false, Qabs_Qle_condition.
      unfold Qsum, atol; cbn [fold_left]; split; lra. }
    rewrite E0, E1, Es; cbn [orb].
    destruct (Z.ltb_spec iterations 0); [reflexivity|lia].
Qed.

(** ** The initial society *)

Lemma advance_add g a b : advance (advance g a) b = advance g (b + a).
Proof. unfold advance; simpl; f_equal; lia. Qed.

Lemma probability_draw (o : option Q) w :
  exists q,
    match o with
    | None => np_random_uniform 0 1
    | Some p => ret p
    end w
    = Ok (q, mk_World
               (advance (np_random w)
                  match o with Some _ => 0 | None => 1 end)
               (rn w) (calls w)).
Proof.
  destruct o as [p|].
  - exists p; rewrite advance_0; destruct w; reflexivity.
  - unfold np_random_uniform.
    rewrite (bind_Ok _ _ _ _ _ (np_random_sample_word w)).
    eexists; reflexivity.
Qed.

(** X14: for lengths [>= 0], [Society.__init__] never fails and never reads
    the probabilities it is given: a probability left to [None] costs one
    draw of numpy's generator, and then the symbols of [space] and of
    [technologies] are selected by the parity of the next
    [s_length + t_length] draws.  The store is the endowment as given (also
    when it is negative), [is_depleted] is [False], and the generator of
    [random] is untouched. *)
Theorem X14_init_society (s_length t_length : Z) (s_prob t_prob : option Q)
    (endowment : Q) (w : World)
    (Hs : 0 <= s_length) (Ht : 0 <= t_length) :
  let k := none_count s_prob t_prob in
  let n := Z.to_nat s_length in
  let m := Z.to_nat t_length in
  Society.init s_length s_prob t_length t_prob endowment w
  = Ok (mk_society
          (map symbol_of_word (words_from (advance (np_random w) k) n))
          (map symbol_of_word
             (words_from (advance (np_random w) (n + k)) m))
          endowment endowment false,
        mk_World (advance (np_random w) (m + (n + k))) (rn w) (calls w)).
Proof.
  cbv zeta; unfold Society.init, none_count.
  destruct (probability_draw s_prob w) as (q1 & E1).
  rewrite (bind_Ok _ _ _ _ _ E1).
  match goal with |- bind _ _ ?w1 = _ =>
    destruct (probability_draw t_prob w1) as (q2 & E2) end.
  rewrite (bind_Ok _ _ _ _ _ E2); cbn [np_random rn calls].
  rewrite (bind_Ok _ _ _ _ _ (string_generator_words q1 s_length _ Hs)).
  rewrite (bind_Ok _ _ _ _ _ (string_generator_words q2 t_length _ Ht)).
  cbn [np_random rn calls]; rewrite !advance_add.
  unfold ret, symbol_of_word.
  replace (match t_prob with Some _ => 0 | None => 1 end
           + match s_prob with Some _ => 0 | None => 1 end)%nat
    with (match s_prob with Some _ => 0 | None => 1 end
          + match t_prob with Some _ => 0 | None => 1 end)%nat by lia.
  reflexivity.
Qed.

Lemma X14_init_society_witness :
  0 <= 2 /\ 0 <= 1
  /\ value_of (Society.init 2 None 1 (Some (7 # 10)) (-3)
                 (mk_World (mk_generator counting 0) (mk_generator zeros 0)
                    []))
     = Ok (mk_society ["1"; "0"]%char ["1"]%char (-3) (-3) false).
Proof.
  assert (Hs : 0 <= 2) by lia.
  assert (Ht : 0 <= 1) by lia.
  split; [exact Hs|]. split; [exact Ht|].
  rewrite (X14_init_society 2 1 None (Some (7 # 10)) (-3) _ Hs Ht).
  reflexivity.
Defined.

(** ** One evolutionary event *)

(** X15: one pass of the loop over the choices, on a society with non-empty
    strings, changes exactly one string, by at most one edit: for [True] the
    method [ce_technologies] is called and only [technologies] is assigned,
    for [False] the method [ce_space] is called and only [space] is
    assigned; the store, the endowment and [is_depleted] stay as they are. *)
Theorem X15_evolve_step (ps : Params.t) (choice : bool) (s : society)
    (w : World) (Hs : nonempty s) :
  exists s' w',
    evolve_step ps choice s w = Ok (s', w')
    /\ (if choice
        then space s' = space s
             /\ (lev (technologies s) (technologies s') <= 1)%nat
             /\ calls w' = (m_ce_technologies, s) :: calls w
        else technologies s' = technologies s
             /\ (lev (space s) (space s') <= 1)%nat
             /\ calls w' = (m_ce_space, s) :: calls w)
    /\ resource_store s' = resource_store s
    /\ initial_endowment s' = initial_endowment s
    /\ is_depleted s' = is_depleted s
    /\ np_random w' = np_random w.
Proof.
  destruct Hs as [Hsp Hte].
  unfold evolve_step, invoke, Society.ce_technologies, Society.ce_space.
  destruct choice.
  - match goal with |- context [string_edit ?a ?b ?c] =>
      destruct (string_edit_Ok a b c
                  (mk_World (np_random w) (rn w)
                     ((m_ce_technologies, s) :: calls w)) Hte)
        as (x & w' & E & _ & Hn & Hc) end.
    unfold bind; rewrite E.
    exists (set_technologies s x), w'; split; [reflexivity|].
    split; [|repeat split; exact Hn].
    split; [reflexivity|]. split; [|exact Hc].
    match type of E with string_edit ?a ?b ?c ?w0 = _ =>
      destruct (candidate_one_edit a w0 Hte) as (new & w1 & Ec & L & _);
      destruct (candidate_Ok a w0 Hte) as (n' & w1' & Ec' & Ll & _);
      rewrite Ec in Ec'; injection Ec' as <- <-;
      unfold string_edit in E; rewrite (bind_Ok _ _ _ _ _ Ec) in E;
      destruct (selection_Ok a new b c w1 Hte Ll) as (r & w2 & Es & Hr & _)
    end.
    rewrite Es in E; injection E as <- _.
    simpl; destruct Hr as [->| ->]; [rewrite lev_refl; lia|exact L].
  - match goal with |- context [string_edit ?a ?b ?c] =>
      destruct (string_edit_Ok a b c
                  (mk_World (np_random w) (rn w)
                     ((m_ce_space, s) :: calls w)) Hsp)
        as (x & w' & E & _ & Hn & Hc) end.
    unfold bind; rewrite E.
    exists (set_space s x), w'; split; [reflexivity|].
    split; [|repeat split; exact Hn].
    split; [reflexivity|]. split; [|exact Hc].
    match type of E with string_edit ?a ?b ?c ?w0 = _ =>
      destruct (candidate_one_edit a w0 Hsp) as (new & w1 & Ec & L & _);
      destruct (candidate_Ok a w0 Hsp) as (n' & w1' & Ec' & Ll & _);
      rewrite Ec in Ec'; injection Ec' as <- <-;
      unfold string_edit in E; rewrite (bind_Ok _ _ _ _ _ Ec) in E;
      destruct (selection_Ok a new b c w1 Hsp Ll) as (r & w2 & Es & Hr & _)
    end.
    rewrite Es in E; injection E as <- _.
    simpl; destruct Hr as [->| ->]; [rewrite lev_refl; lia|exact L].
Qed.

Lemma X15_evolve_step_witness :
  nonempty (mk_society ["0"]%char ["1"; "1"]%char 5 5 false)
  /\ exists s' w',
       evolve_step scenario true
         (mk_society ["0"]%char ["1"; "1"]%char 5 5 false) world0
       = Ok (s', w')
       /\ space s' = ["0"]%char.
Proof.
  assert (Hs : nonempty (mk_society ["0"]%char ["1"; "1"]%char 5 5 false))
    by (split; vm_compute; discriminate).
  split; [exact Hs|].
  destruct (X15_evolve_step scenario true _ world0 Hs)
    as (s' & w' & E & (Hsp & _) & _).
  exists s', w'; split; [exact E|exact Hsp].
Defined.

(** ** Runs at the edges of the configuration *)

Lemma py_round_ge_1 x : (1 <= x)%Q -> 1 <= py_round x.
Proof.
  intros H; unfold py_round.
  assert (Hf : 1 <= Qfloor x).
  { change 1 with (Qfloor 1); apply Qfloor_resp_le; exact H. }
  destruct (x - inject_Z (Qfloor x) ?= 1 # 2)%Q;
    [destruct (Z.even (Qfloor x))|..]; lia.
Qed.

Lemma range_from_nil n : n <= 1 -> range_from 1 n = [].
Proof.
  intros H; unfold range_from.
  replace (Z.to_nat (n - Z.of_nat 1)) with 0%nat by lia; reflexivity.
Qed.

Lemma range_from_cons n :
  2 <= n -> exists rest, range_from 1 n = 1 :: rest.
Proof.
  intros H; unfold range_from.
  destruct (Z.to_nat (n - Z.of_nat 1)) as [|k] eqn:E; [lia|].
  eexists; reflexivity.
Qed.

Lemma generation_loop_bad_tradeoff ps gen rest s output w :
  nonempty s ->
  (Params.p_tradeoff ps < 0)%Q \/ (1 < Params.p_tradeoff ps)%Q ->
  generation_loop ps (gen :: rest) s output w = Err ValueError
  \/ exists s' w',
       generation_loop ps (gen :: rest) s output w
       = Ok ((resource_depletion gen, s', output), w')
       /\ is_depleted s' = true.
Proof.
  intros Hs Hp.
  remember (generation_loop ps (gen :: rest) s output w) as R eqn:ER.
  cbn [generation_loop] in ER.
  destruct (net_resources_of_Ok s w Hs) as (net & En).
  rewrite (bind_Ok _ _ _ _ _ En) in ER.
  unfold invoke at 1, ret at 1, bind at 1 in ER.
  pose proof (update_available s net) as Ha.
  destruct (Society.update_resource_store s net) as [available s1].
  simpl in Ha.
  destruct (is_depleted s1) eqn:D.
  - right; subst R; eexists; eexists; split; [reflexivity|exact D].
  - left; destruct (Ha eq_refl) as [H1 _].
    assert (E1 : Qle_bool 1 available = true) by (apply Qle_bool_iff; exact H1).
    rewrite E1 in ER.
    pose proof (py_round_ge_1 available H1) as Hr.
    destruct (Z.ltb_spec 0 (py_round available)); [|lia].
    subst R; apply bind_Err, bind_Err; unfold invoke.
    apply tradeoff_out_of_range, Hp.
Qed.

Section Edges.

Variable np_words : Z -> nat -> N.
Variable rn_words : Z -> nat -> N.

Lemma seeded ps w :
  0 <= Params.seed ps <= 4294967295 ->
  exists w1,
    calls w1 = calls w
    /\ forall A (c : M A),
         (np_random_seed np_words (Params.seed ps) ;;;
          rn_seed rn_words (Params.seed ps) ;;; c) w = c w1.
Proof.
  intros H; eexists; split; [|intros A c].
  2: { unfold np_random_seed, rn_seed, bind at 1.
       destruct (Z.ltb_spec (Params.seed ps) 0); [lia|].
       destruct (Z.ltb_spec 4294967295 (Params.seed ps)); [lia|].
       cbn [orb]; unfold bind at 1; reflexivity. }
  reflexivity.
Qed.

(** X16: with [generations <= 1] (0 and negative values included) the loop
    body never runs: a run with a valid seed and initial lengths of at least
    1 returns exactly one row, the one of generation 0, whatever
    [p_tradeoff], [eta] and [lambda] are, and calls no method but the
    [update_resource_store] of generation 0. *)
Theorem X16_single_generation (ps : Params.t) (w : World)
    (Hseed : 0 <= Params.seed ps <= 4294967295)
    (Hs : 1 <= Params.s_length ps) (Ht : 1 <= Params.t_length ps)
    (Hg : Params.generations ps <= 1) :
  exists s r0 w' s_init,
    simulation_run np_words rn_words ps w
    = Ok ((generations_complete, s, [r0]), w')
    /\ simulation np_words rn_words ps w = Ok ([r0], w')
    /\ FrameRow.generation r0 = 0
    /\ FrameRow.tech_complexity r0 = Params.t_length ps
    /\ FrameRow.space_complexity r0 = Params.s_length ps
    /\ calls w' = (m_update_resource_store, s_init) :: calls w.
Proof.
  destruct (seeded ps w Hseed) as (w1 & Hc1 & Hrun).
  destruct (generation_0_Ok ps w1 Hs Ht)
    as (s_init & s0 & r0 & w2 & E & Hc & _ & _ & _ & _ & G & T & S & _).
  assert (Er : simulation_run np_words rn_words ps w
               = Ok ((generations_complete, s0, [r0]), w2)).
  { unfold simulation_run; rewrite Hrun, (bind_Ok _ _ _ _ _ E).
    rewrite range_from_nil by exact Hg; reflexivity. }
  exists s0, r0, w2, s_init.
  split; [exact Er|].
  split; [unfold simulation; rewrite (bind_Ok _ _ _ _ _ Er); reflexivity|].
  do 3 (split; [assumption|]); congruence.
Qed.

(** X17: a seed outside [[0, 2^32 - 1]] makes [simulation] raise
    [ValueError] at once ([np.random.seed]), whatever the other arguments
    are. *)
Theorem X17_seed_out_of_range (ps : Params.t) (w : World)
    (H : Params.seed ps < 0 \/ 4294967295 < Params.seed ps) :
  simulation np_words rn_words ps w = Err ValueError.
Proof.
  unfold simulation, simulation_run.
  apply bind_Err, bind_Err; unfold np_random_seed.
  destruct (Z.ltb_spec (Params.seed ps) 0); [reflexivity|].
  destruct (Z.ltb_spec 4294967295 (Params.seed ps)); [reflexivity|lia].
Qed.

(** X18: initial lengths 0 and 0 are not refused when the society is
    created: with a valid seed the two empty strings are generated and the
    run raises [ZeroDivisionError] when it evaluates them at generation 0. *)
Theorem X18_empty_strings (ps : Params.t) (w : World)
    (Hseed : 0 <= Params.seed ps <= 4294967295)
    (Hs : Params.s_length ps = 0) (Ht : Params.t_length ps = 0) :
  simulation np_words rn_words ps w = Err ZeroDivisionError
  /\ forall w0, exists s w1,
       Society.init (Params.s_length ps) (Params.s_prob ps)
         (Params.t_length ps) (Params.t_prob ps)
         (Params.initial_endowment ps) w0 = Ok (s, w1)
       /\ space s = [] /\ technologies s = [].
Proof.
  assert (Hi : forall w0, exists s w1,
             Society.init (Params.s_length ps) (Params.s_prob ps)
               (Params.t_length ps) (Params.t_prob ps)
               (Params.initial_endowment ps) w0 = Ok (s, w1)
             /\ space s = [] /\ technologies s = []).
  { intros w0.
    destruct (init_Ok (Params.s_length ps) (Params.s_prob ps)
                (Params.t_length ps) (Params.t_prob ps)
                (Params.initial_endowment ps) w0)
      as (s & w1 & E & Ls & Lt & _); [lia|lia|].
    exists s, w1; split; [exact E|].
    unfold len in *.
    split; [destruct (space s)|destruct (technologies s)];
      try reflexivity; simpl in *; lia. }
  split; [|exact Hi].
  destruct (seeded ps w Hseed) as (w1 & _ & Hrun).
  unfold simulation; apply bind_Err.
  unfold simulation_run; rewrite Hrun.
  apply bind_Err; unfold generation_0.
  destruct (Hi w1) as (s & w2 & E & Esp & Ete).
  rewrite (bind_Ok _ _ _ _ _ E), Esp, Ete; reflexivity.
Qed.

(** X19: a [p_tradeoff] outside [[0, 1]] is found only when the first
    allocation is drawn: a run with a valid seed, initial lengths of at
    least 1 and two generations or more either raises [ValueError] at
    generation 1, or stops there on depletion with the row of generation 0
    alone. *)
Theorem X19_p_tradeoff_out_of_range (ps : Params.t) (w : World)
    (Hseed : 0 <= Params.seed ps <= 4294967295)
    (Hs : 1 <= Params.s_length ps) (Ht : 1 <= Params.t_length ps)
    (Hg : 2 <= Params.generations ps)
    (Hp : (Params.p_tradeoff ps < 0)%Q \/ (1 < Params.p_tradeoff ps)%Q) :
  simulation np_words rn_words ps w = Err ValueError
  \/ exists s r0 w',
       simulation_run np_words rn_words ps w
       = Ok ((resource_depletion 1, s, [r0]), w')
       /\ simulation np_words rn_words ps w = Ok ([r0], w')
       /\ is_depleted s = true.
Proof.
  destruct (seeded ps w Hseed) as (w1 & _ & Hrun).
  destruct (generation_0_Ok ps w1 Hs Ht)
    as (s_init & s0 & r0 & w2 & E & _ & _ & _ & Hn & _).
  destruct (range_from_cons _ Hg) as (rest & Er).
  assert (Es : simulation_run np_words rn_words ps w
               = generation_loop ps (1 :: rest) s0 [r0] w2).
  { unfold simulation_run; rewrite Hrun, (bind_Ok _ _ _ _ _ E), Er.
    reflexivity. }
  destruct (generation_loop_bad_tradeoff ps 1 rest s0 [r0] w2 Hn Hp)
    as [El|(s' & w' & El & D)]; rewrite <- Es in El.
  - left; unfold simulation; apply bind_Err, El.
  - right; exists s', r0, w'; split; [exact El|].
    split; [unfold simulation; rewrite (bind_Ok _ _ _ _ _ El); reflexivity|].
    exact D.
Qed.

End Edges.

Lemma X16_single_generation_witness :
  0 <= Params.seed one_generation <= 4294967295
  /\ 1 <= Params.s_length one_generation
  /\ 1 <= Params.t_length one_generation
  /\ Params.generations one_generation <= 1
  /\ exists r0 w',
       simulation seeded_zeros seeded_counting one_generation world0
       = Ok ([r0], w').
Proof.
  assert (Hseed : 0 <= Params.seed one_generation <= 4294967295)
    by (simpl; lia).
  assert (Hs : 1 <= Params.s_length one_generation) by (simpl; lia).
  assert (Ht : 1 <= Params.t_length one_generation) by (simpl; lia).
  assert (Hg : Params.generations one_generation <= 1) by (simpl; lia).
  do 4 (split; [assumption|]).
  destruct (X16_single_generation seeded_zeros seeded_counting one_generation
              world0 Hseed Hs Ht Hg) as (s & r0 & w' & si & _ & E & _).
  exists r0, w'; exact E.
Defined.

Lemma X17_seed_out_of_range_witness :
  (Params.seed negative_seed < 0 \/ 4294967295 < Params.seed negative_seed)
  /\ simulation seeded_zeros seeded_counting negative_seed world0
     = Err ValueError.
Proof.
  assert (H : Params.seed negative_seed < 0
              \/ 4294967295 < Params.seed negative_seed)
    by (left; simpl; lia).
  split; [exact H|].
  exact (X17_seed_out_of_range seeded_zeros seeded_counting negative_seed
           world0 H).
Defined.

Lemma X18_empty_strings_witness :
  0 <= Params.seed zero_lengths <= 4294967295
  /\ Params.s_length zero_lengths = 0 /\ Params.t_length zero_lengths = 0
  /\ simulation seeded_zeros seeded_counting zero_lengths world0
     = Err ZeroDivisionError.
Proof.
  assert (Hseed : 0 <= Params.seed zero_lengths <= 4294967295)
    by (simpl; lia).
  split; [exact Hseed|]. split; [reflexivity|]. split; [reflexivity|].
  exact (proj1 (X18_empty_strings seeded_zeros seeded_counting zero_lengths
                  world0 Hseed eq_refl eq_refl)).
Defined.

Lemma X19_p_tradeoff_out_of_range_witness :
  0 <= Params.seed p_tradeoff_2 <= 4294967295
  /\ 1 <= Params.s_length p_tradeoff_2 /\ 1 <= Params.t_length p_tradeoff_2
  /\ 2 <= Params.generations p_tradeoff_2
  /\ ((Params.p_tradeoff p_tradeoff_2 < 0)%Q
      \/ (1 < Params.p_tradeoff p_tradeoff_2)%Q)
  /\ (simulation seeded_zeros seeded_counting p_tradeoff_2 world0
      = Err ValueError
      \/ exists s r0 w',
           simulation_run seeded_zeros seeded_counting p_tradeoff_2 world0
           = Ok ((resource_depletion 1, s, [r0]), w')
           /\ simulation seeded_zeros seeded_counting p_tradeoff_2 world0
              = Ok ([r0], w')
           /\ is_depleted s = true).
Proof.
  assert (Hseed : 0 <= Params.seed p_tradeoff_2 <= 4294967295)
    by (simpl; lia).
  assert (Hs : 1 <= Params.s_length p_tradeoff_2) by (simpl; lia).
  assert (Ht : 1 <= Params.t_length p_tradeoff_2) by (simpl; lia).
  assert (Hg : 2 <= Params.generations p_tradeoff_2) by (simpl; lia).
  assert (Hp : (Params.p_tradeoff p_tradeoff_2 < 0)%Q
               \/ (1 < Params.p_tradeoff p_tradeoff_2)%Q)
    by (right; reflexivity).
  do 5 (split; [assumption|]).
  exact (X19_p_tradeoff_out_of_range seeded_zeros seeded_counting p_tradeoff_2
           world0 Hseed Hs Ht Hg Hp).
Defined.

(** ** What every row of a frame satisfies *)

Lemma string_edit_facts str_1 str_2 eff w :
  1 <= len str_1 ->
  exists r w',
    string_edit str_1 str_2 eff w = Ok (r, w')
    /\ 1 <= len r /\ (lev str_1 r <= 1)%nat
    /\ (Forall bit str_1 -> Forall bit r).
Proof.
  intros H; unfold string_edit.
  destruct (candidate_one_edit str_1 w H) as (new & w1 & E & L & B & _).
  rewrite (bind_Ok _ _ _ _ _ E).
  assert (Hl : 1 <= len new).
  { destruct (candidate_Ok str_1 w H) as (n' & w1' & E' & Hl & _).
    rewrite E in E'; injection E' as <- _; exact Hl. }
  destruct (selection_Ok str_1 new str_2 eff w1 H Hl)
    as (r & w' & -> & [->| ->] & _); eexists; eexists;
    (split; [reflexivity|]); repeat split; auto.
  rewrite lev_refl; lia.
Qed.


Lemma evolve_step_store ps choice s w s' w' :
  evolve_step ps choice s w = Ok (s', w') ->
  resource_store s' = resource_store s.
Proof.
  intros E; unfold evolve_step in E.
  destruct choice; apply bind_inv in E; destruct E as (x & w1 & _ & E);
    injection E as <- _; reflexivity.
Qed.

Section LoopInvariant.

Variable ps : Params.t.
Variable I : society -> Prop.
Hypothesis I_update :
  forall s net, I s -> I (snd (Society.update_resource_store s net)).
Hypothesis I_step :
  forall choice s w s' w',
    I s -> evolve_step ps choice s w = Ok (s', w') -> I s'.

Lemma evolve_invariant choices : forall s w s' w',
  I s -> evolve ps choices s w = Ok (s', w') -> I s'.
Proof.
  induction choices as [|choice rest IH]; intros s w s' w' Hs E.
  - injection E as <- _; exact Hs.
  - cbn [evolve] in E.
    apply bind_inv in E; destruct E as (s1 & w1 & E1 & E).
    exact (IH _ _ _ _ (I_step _ _ _ _ _ Hs E1) E).
Qed.

Lemma generation_loop_invariant gens :
  forall s output w o s' rows w',
    I s ->
    generation_loop ps gens s output w = Ok ((o, s', rows), w') ->
    I s' /\ exists new, rows = output ++ new /\ Forall (produced ps I) new.
Proof.
  induction gens as [|gen rest IH]; intros s output w o s' rows w' Hs E.
  { injection E as _ <- <- _; split; [exact Hs|].
    exists []; split; [symmetry; apply app_nil_r|constructor]. }
  cbn [generation_loop] in E.
  apply bind_inv in E; destruct E as (net & w1 & _ & E).
  unfold invoke at 1, ret at 1, bind at 1 in E.
  pose proof (I_update s net Hs) as Hs1.
  pose proof (update_available s net) as Ha.
  destruct (Society.update_resource_store s net) as [available s1].
  simpl in Hs1, Ha.
  destruct (is_depleted s1).
  { injection E as _ <- <- _; split; [exact Hs1|].
    exists []; split; [symmetry; apply app_nil_r|constructor]. }
  destruct (Ha eq_refl) as [H1 _].
  apply bind_inv in E; destruct E as (s2 & w2 & Ee & E).
  assert (Hs2 : I s2).
  { destruct (0 <? _).
    - apply bind_inv in Ee; destruct Ee as (choices & w3 & _ & Ee).
      exact (evolve_invariant _ _ _ _ _ Hs1 Ee).
    - injection Ee as <- _; exact Hs1. }
  apply bind_inv in E; destruct E as (e & w3 & Ev & E).
  assert (Hev : evaluate (technologies s2) (space s2) = Ok e).
  { unfold lift in Ev.
    destruct (evaluate (technologies s2) (space s2)); [|discriminate].
    injection Ev as -> _; reflexivity. }
  assert (Hr : produced ps I (row ps gen s2 e available)).
  { exists gen, s2, e, available; auto. }
  destruct (_ <=? _).
  - injection E as _ <- <- _; split; [exact Hs2|].
    eexists; split; [reflexivity|constructor; [exact Hr|constructor]].
  - destruct (IH _ _ _ _ _ _ _ Hs2 E) as (Hs' & new & -> & F).
    split; [exact Hs'|].
    exists (row ps gen s2 e available :: new).
    split; [rewrite <- app_assoc; reflexivity|constructor; assumption].
Qed.

End LoopInvariant.

Lemma generation_0_full ps w :
  1 <= Params.s_length ps -> 1 <= Params.t_length ps ->
  exists s_init e net w',
    generation_0 ps w
    = Ok ((snd (Society.update_resource_store s_init net),
           [row ps 0 (snd (Society.update_resource_store s_init net)) e
              (fst (Society.update_resource_store s_init net))]), w')
    /\ bits s_init
    /\ resource_store s_init = Params.initial_endowment ps
    /\ is_depleted s_init = false
    /\ evaluate (technologies s_init) (space s_init) = Ok e.
Proof.
  intros Hs Ht; unfold generation_0.
  destruct (init_Ok (Params.s_length ps) (Params.s_prob ps)
              (Params.t_length ps) (Params.t_prob ps)
              (Params.initial_endowment ps) w)
    as (s & w1 & E & Lsp & Lte & Bsp & Bte & Hr & _ & Hd & Hc); [lia|lia|].
  rewrite (bind_Ok _ _ _ _ _ E).
  assert (Hn : nonempty s) by (unfold nonempty; lia).
  pose proof (evaluate_Ok (technologies s) (space s) (or_intror (proj1 Hn)))
    as Ev.
  rewrite Ev; unfold lift at 1, bind at 1.
  destruct (net_resources_of_Ok s w1 Hn) as (net & En).
  rewrite (bind_Ok _ _ _ _ _ En).
  unfold invoke, ret, bind.
  exists s; eexists; exists net; eexists.
  destruct (Society.update_resource_store s net) as [a s0]; simpl.
  split; [reflexivity|].
  split; [split; [exact Hn|split; assumption]|].
  split; [exact Hr|]. split; [exact Hd|exact Ev].
Qed.


Section Rows.

Variable np_words : Z -> nat -> N.
Variable rn_words : Z -> nat -> N.

(** A run that returns, taken apart: the row of generation 0 and the rows of
    the loop, which are produced from societies satisfying any invariant
    [I] of the update and of the edits that holds initially. *)
Lemma simulation_run_rows ps w (I : society -> Prop) :
  (forall s net, I s -> I (snd (Society.update_resource_store s net))) ->
  (forall choice s w0 s' w', I s ->
     evolve_step ps choice s w0 = Ok (s', w') -> I s') ->
  (forall s, bits s ->
     resource_store s = Params.initial_endowment ps ->
     is_depleted s = false -> I s) ->
  runnable ps ->
  exists s_init e net o s' new w',
    simulation_run np_words rn_words ps w
    = Ok ((o, s',
           row ps 0 (snd (Society.update_resource_store s_init net)) e
             (fst (Society.update_resource_store s_init net)) :: new), w')
    /\ I s_init /\ I s' /\ Forall (produced ps I) new
    /\ resource_store s_init = Params.initial_endowment ps
    /\ evaluate (technologies s_init) (space s_init) = Ok e.
Proof.
  intros Iu Is Ii Hr.
  destruct (simulation_run_Ok np_words rn_words ps w Hr)
    as (s0 & r0 & o & s' & new & w' & h & E & _).
  destruct Hr as (Hseed & Hs & Ht & _).
  destruct (seeded np_words rn_words ps w Hseed) as (w1 & _ & Hrun).
  destruct (generation_0_full ps w1 Hs Ht)
    as (s_init & e & net & w2 & E0 & Hb & Hst & Hd & Ev).
  unfold simulation_run in E; rewrite Hrun, (bind_Ok _ _ _ _ _ E0) in E.
  pose proof (Ii s_init Hb Hst Hd) as Hi.
  destruct (generation_loop_invariant ps I Iu Is _ _ _ _ _ _ _ _
              (Iu s_init net Hi) E) as (Hs' & new' & Hrows & F).
  simpl in Hrows; injection Hrows as -> ->.
  exists s_init, e, net, o, s', new', w'.
  split; [unfold simulation_run;
          rewrite Hrun, (bind_Ok _ _ _ _ _ E0); exact E|].
  auto.
Qed.

(** X20: in the frame of a run on a valid configuration every row has an
    effectiveness in [[0, 1]] and carries the arguments of the run in its
    parameter columns, and every row after the first has at least 1 of
    available resources: once the depletion test is passed, the number of
    edits [round(available_resources)] is at least 1, so the fallbacks
    [else 1] and [if iterations > 0] never decide anything. *)
Theorem X20_rows_well_formed (ps : Params.t) (w : World)
    (Hr : runnable ps) :
  exists r0 new w',
    simulation np_words rn_words ps w = Ok (r0 :: new, w')
    /\ Forall (fun r => (1 <= FrameRow.available_resources r)%Q
                        /\ 1 <= py_round (FrameRow.available_resources r)) new
    /\ Forall (fun r =>
                 (0 <= FrameRow.effectiveness r)%Q /\ (FrameRow.effectiveness r <= 1)%Q
                 /\ FrameRow.seed r = Params.seed ps
                 /\ FrameRow.initial_tech r = Params.t_length ps
                 /\ FrameRow.initial_space r = Params.s_length ps
                 /\ FrameRow.eta r = Params.eta ps
                 /\ FrameRow.lambda r = Params.lambda ps
                 /\ FrameRow.initial_endowment r = Params.initial_endowment ps
                 /\ FrameRow.p_tradeoff r = Params.p_tradeoff ps) (r0 :: new).
Proof.
  destruct (simulation_run_rows ps w (fun _ => True))
    as (s_init & e & net & o & s' & new & w' & E & _ & _ & F & _ & Ev);
    auto.
  eexists; exists new, w'.
  split; [unfold simulation; rewrite (bind_Ok _ _ _ _ _ E); reflexivity|].
  split.
  - eapply Forall_impl; [|exact F].
    intros r (gen & s & e' & a & -> & _ & _ & Ha); simpl.
    split; [exact Ha|apply py_round_ge_1, Ha].
  - constructor.
    + simpl; destruct (evaluate_range _ _ _ Ev); repeat split; assumption.
    + eapply Forall_impl; [|exact F].
      intros r (gen & s & e' & a & -> & _ & Ev' & _); simpl.
      destruct (evaluate_range _ _ _ Ev'); repeat split; assumption.
Qed.


End Rows.

Lemma X20_rows_well_formed_witness :
  runnable scenario
  /\ exists r0 new w',
       simulation seeded_zeros seeded_counting scenario world0
       = Ok (r0 :: new, w')
       /\ Forall (fun r => (1 <= FrameRow.available_resources r)%Q
                           /\ 1 <= py_round (FrameRow.available_resources r)) new.
Proof.
  split; [exact scenario_runnable|].
  destruct (X20_rows_well_formed seeded_zeros seeded_counting scenario world0
              scenario_runnable) as (r0 & new & w' & E & F & _).
  exists r0, new, w'; split; [exact E|exact F].
Defined.


(** ** The store along a run *)

Lemma non_increasing_cons x y l :
  (y <= x)%Q -> non_increasing (y :: l) -> non_increasing (x :: y :: l).
Proof. intros H1 H2; split; assumption. Qed.

Lemma generation_loop_store ps gens :
  forall s output w o s' rows w',
    (0 <= resource_store s)%Q ->
    generation_loop ps gens s output w = Ok ((o, s', rows), w') ->
    exists new,
      rows = output ++ new
      /\ non_increasing (resource_store s :: map FrameRow.resource_store new)
      /\ Forall (fun r => (0 <= FrameRow.resource_store r)%Q) new.
Proof.
  induction gens as [|gen rest IH]; intros s output w o s' rows w' H0 E.
  { injection E as _ <- <- _.
    exists []; split; [symmetry; apply app_nil_r|split; constructor]. }
  cbn [generation_loop] in E.
  apply bind_inv in E; destruct E as (net & w1 & _ & E).
  unfold invoke at 1, ret at 1, bind at 1 in E.
  destruct (update_store_bounds s net H0) as [B0 B1].
  destruct (Society.update_resource_store s net) as [available s1].
  simpl in B0, B1.
  destruct (is_depleted s1).
  { injection E as _ <- <- _.
    exists []; split; [symmetry; apply app_nil_r|split; constructor]. }
  apply bind_inv in E; destruct E as (s2 & w2 & Ee & E).
  assert (Hs2 : resource_store s2 = resource_store s1).
  { destruct (0 <? _).
    - apply bind_inv in Ee; destruct Ee as (choices & w3 & _ & Ee).
      apply (evolve_invariant ps
               (fun x => resource_store x = resource_store s1)) in Ee;
        [exact Ee| |reflexivity].
      intros choice x w0 x' w0' Hx Ex.
      rewrite (evolve_step_store _ _ _ _ _ _ Ex); exact Hx.
    - injection Ee as <- _; reflexivity. }
  apply bind_inv in E; destruct E as (e & w3 & _ & E).
  assert (H2 : (0 <= resource_store s2)%Q) by (rewrite Hs2; exact B0).
  destruct (_ <=? _).
  - injection E as _ <- <- _.
    eexists; split; [reflexivity|]. simpl.
    split; [split; [rewrite Hs2; exact B1|exact I]|].
    constructor; [exact H2|constructor].
  - destruct (IH _ _ _ _ _ _ _ H2 E) as (new & -> & N & F).
    exists (row ps gen s2 e available :: new).
    split; [rewrite <- app_assoc; reflexivity|].
    split; [|constructor; [exact H2|exact F]].
    cbn [map]; apply non_increasing_cons;
      [simpl; rewrite Hs2; exact B1|exact N].
Qed.

Section Store.

Variable np_words : Z -> nat -> N.
Variable rn_words : Z -> nat -> N.

(** X22: in the frame of a run on a valid configuration with a non-negative
    endowment the column [resource_store] starts at most at the endowment,
    never goes up from one row to the next, and is never negative. *)
Theorem X22_store_column (ps : Params.t) (w : World)
    (Hr : runnable ps) (He : (0 <= Params.initial_endowment ps)%Q) :
  exists rows w',
    simulation np_words rn_words ps w = Ok (rows, w')
    /\ non_increasing
         (Params.initial_endowment ps :: map FrameRow.resource_store rows)
    /\ Forall (fun r => (0 <= FrameRow.resource_store r)%Q) rows.
Proof.
  destruct (simulation_run_Ok np_words rn_words ps w Hr)
    as (s0 & r0 & o & s' & new & w' & h & E & _).
  exists (r0 :: new), w'.
  split; [unfold simulation; rewrite (bind_Ok _ _ _ _ _ E); reflexivity|].
  destruct Hr as (Hseed & Hs & Ht & _).
  destruct (seeded np_words rn_words ps w Hseed) as (w1 & _ & Hrun).
  destruct (generation_0_full ps w1 Hs Ht)
    as (s_init & e & net & w2 & E0 & _ & Hst & _).
  unfold simulation_run in E; rewrite Hrun, (bind_Ok _ _ _ _ _ E0) in E.
  assert (H0 : (0 <= resource_store s_init)%Q) by (rewrite Hst; exact He).
  destruct (update_store_bounds s_init net H0) as [B0 B1].
  destruct (generation_loop_store _ _ _ _ _ _ _ _ _ B0 E)
    as (new' & Hrows & N & F).
  simpl in Hrows; injection Hrows as -> ->.
  split.
  - cbn [map]; apply non_increasing_cons;
      [simpl; rewrite <- Hst; exact B1|exact N].
  - constructor; [exact B0|exact F].
Qed.

End Store.

Lemma X22_store_column_witness :
  runnable scenario /\ (0 <= Params.initial_endowment scenario)%Q
  /\ exists rows w',
       simulation seeded_zeros seeded_counting scenario world0
       = Ok (rows, w')
       /\ Forall (fun r => (0 <= FrameRow.resource_store r)%Q) rows.
Proof.
  assert (He : (0 <= Params.initial_endowment scenario)%Q)
    by (vm_compute; discriminate).
  split; [exact scenario_runnable|]. split; [exact He|].
  destruct (X22_store_column seeded_zeros seeded_counting scenario world0
              scenario_runnable He) as (rows & w' & E & _ & F).
  exists rows, w'; split; [exact E|exact F].
Defined.

(** ** Growth is paid for *)

Lemma evolve_step_growth ps choice s w s' w' :
  nonempty s -> evolve_step ps choice s w = Ok (s', w') ->
  nonempty s'
  /\ Z.abs (len (technologies s') - len (technologies s))
     + Z.abs (len (space s') - len (space s)) <= 1.
Proof.
  intros [Hsp Hte] E.
  unfold evolve_step, invoke, Society.ce_technologies, Society.ce_space in E.
  destruct choice; apply bind_inv in E; destruct E as (x & w1 & Ex & E);
    injection E as <- _.
  - match type of Ex with string_edit ?a ?b ?c ?w0 = _ =>
      destruct (string_edit_facts a b c w0 Hte) as (r & w2 & Er & L & D & _)
    end.
    rewrite Ex in Er; injection Er as <- _.
    pose proof (lev_lower (technologies s) x) as [L1 L2].
    split; [split; assumption|simpl; unfold len in *; lia].
  - match type of Ex with string_edit ?a ?b ?c ?w0 = _ =>
      destruct (string_edit_facts a b c w0 Hsp) as (r & w2 & Er & L & D & _)
    end.
    rewrite Ex in Er; injection Er as <- _.
    pose proof (lev_lower (space s) x) as [L1 L2].
    split; [split; assumption|simpl; unfold len in *; lia].
Qed.

Lemma evolve_growth ps choices : forall s w s' w',
  nonempty s -> evolve ps choices s w = Ok (s', w') ->
  nonempty s'
  /\ Z.abs (len (technologies s') - len (technologies s))
     + Z.abs (len (space s') - len (space s))
     <= Z.of_nat (length choices).
Proof.
  induction choices as [|choice rest IH]; intros s w s' w' Hs E.
  - injection E as <- _; split; [exact Hs|simpl; lia].
  - cbn [evolve] in E.
    apply bind_inv in E; destruct E as (s1 & w1 & E1 & E).
    destruct (evolve_step_growth _ _ _ _ _ _ Hs E1) as [Hs1 G1].
    destruct (IH _ _ _ _ Hs1 E) as [Hs' G].
    split; [exact Hs'|cbn [length]; lia].
Qed.

Lemma generation_loop_growth ps gens :
  (0 <= Params.p_tradeoff ps)%Q -> (Params.p_tradeoff ps <= 1)%Q ->
  forall s output w o s' rows w',
    nonempty s ->
    generation_loop ps gens s output w = Ok ((o, s', rows), w') ->
    exists new,
      rows = output ++ new
      /\ growth_bounded (len (technologies s)) (len (space s)) new.
Proof.
  intros H0 H1.
  induction gens as [|gen rest IH]; intros s output w o s' rows w' Hs E.
  { injection E as _ <- <- _.
    exists []; split; [symmetry; apply app_nil_r|exact I]. }
  cbn [generation_loop] in E.
  apply bind_inv in E; destruct E as (net & w1 & _ & E).
  unfold invoke at 1, ret at 1, bind at 1 in E.
  destruct (update_resource_store_strings s net) as [Usp Ute].
  pose proof (update_available s net) as Ha.
  destruct (Society.update_resource_store s net) as [available s1].
  simpl in Usp, Ute, Ha.
  assert (Hs1 : nonempty s1) by (unfold nonempty; rewrite Usp, Ute; exact Hs).
  destruct (is_depleted s1).
  { injection E as _ <- <- _.
    exists []; split; [symmetry; apply app_nil_r|exact I]. }
  destruct (Ha eq_refl) as [Hav _].
  assert (E1 : Qle_bool 1 available = true) by (apply Qle_bool_iff; exact Hav).
  rewrite E1 in E.
  pose proof (py_round_ge_1 available Hav) as Hr.
  destruct (Z.ltb_spec 0 (py_round available)); [|lia].
  apply bind_inv in E; destruct E as (s2 & w2 & Ee & E).
  apply bind_inv in Ee; destruct Ee as (choices & w3 & Et & Ee).
  unfold invoke in Et.
  rewrite tradeoff_words in Et by (assumption || lia).
  injection Et as <- _.
  destruct (evolve_growth _ _ _ _ _ _ Hs1 Ee) as [Hs2 G].
  unfold words_from in G; rewrite !length_map, length_seq in G.
  rewrite Usp, Ute in G.
  apply bind_inv in E; destruct E as (e & w4 & _ & E).
  assert (Hg : Z.abs (FrameRow.tech_complexity (row ps gen s2 e available)
                      - len (technologies s))
               + Z.abs (FrameRow.space_complexity (row ps gen s2 e available)
                        - len (space s))
               <= py_round (FrameRow.available_resources
                              (row ps gen s2 e available)))
    by (simpl; lia).
  destruct (_ <=? _).
  - injection E as _ <- <- _.
    eexists; split; [reflexivity|split; [exact Hg|exact I]].
  - destruct (IH _ _ _ _ _ _ _ Hs2 E) as (new & -> & N).
    exists (row ps gen s2 e available :: new).
    split; [rewrite <- app_assoc; reflexivity|].
    split; [exact Hg|exact N].
Qed.

Section Growth.

Variable np_words : Z -> nat -> N.
Variable rn_words : Z -> nat -> N.

(** X23: growth is paid for.  In the frame of a run on a valid
    configuration, from each row to the next [tech_complexity] and
    [space_complexity] move, together, by at most
    [round(available_resources)] of the later row: each of the
    [round(available_resources)] edits of a generation changes one length by
    at most 1. *)
Theorem X23_growth_bounded (ps : Params.t) (w : World) (Hr : runnable ps) :
  exists r0 new w',
    simulation np_words rn_words ps w = Ok (r0 :: new, w')
    /\ FrameRow.tech_complexity r0 = Params.t_length ps
    /\ FrameRow.space_complexity r0 = Params.s_length ps
    /\ growth_bounded (FrameRow.tech_complexity r0) (FrameRow.space_complexity r0) new.
Proof.
  destruct (simulation_run_Ok np_words rn_words ps w Hr)
    as (s0 & r0 & o & s' & new & w' & h & E & _ & _ & _ & T & S & _).
  exists r0, new, w'.
  split; [unfold simulation; rewrite (bind_Ok _ _ _ _ _ E); reflexivity|].
  do 2 (split; [assumption|]).
  destruct Hr as (Hseed & Hs & Ht & H0 & H1).
  destruct (seeded np_words rn_words ps w Hseed) as (w1 & _ & Hrun).
  destruct (generation_0_full ps w1 Hs Ht)
    as (s_init & e & net & w2 & E0 & (Hn & _) & _).
  unfold simulation_run in E; rewrite Hrun, (bind_Ok _ _ _ _ _ E0) in E.
  destruct (update_resource_store_strings s_init net) as [Usp Ute].
  assert (Hn0 : nonempty (snd (Society.update_resource_store s_init net)))
    by (unfold nonempty; rewrite Usp, Ute; exact Hn).
  destruct (generation_loop_growth ps _ H0 H1 _ _ _ _ _ _ _ Hn0 E)
    as (new' & Hrows & G).
  simpl in Hrows; injection Hrows as -> ->.
  exact G.
Qed.

(** X24: with a complexity limit of at most 1 every generation of the loop
    reaches it, since [technologies] is never empty: a run on a valid
    configuration returns at most two rows. *)
Theorem X24_limit_at_most_1 (ps : Params.t) (w : World) (Hr : runnable ps)
    (Hl : Params.limit ps <= 1) :
  exists rows w',
    simulation np_words rn_words ps w = Ok (rows, w')
    /\ (1 <= length rows <= 2)%nat.
Proof.
  destruct (simulation_run_Ok np_words rn_words ps w Hr)
    as (s0 & r0 & o & s' & new & w' & h & E & _ & _ & _ & _ & _ & _ & P).
  exists (r0 :: new), w'.
  split; [unfold simulation; rewrite (bind_Ok _ _ _ _ _ E); reflexivity|].
  destruct P as (_ & _ & Fn & _ & _ & P).
  assert (Hnil : forall l, Forall row_nonempty l ->
                           Forall (below_limit ps) l -> l = []).
  { intros [|r l] F1 F2; [reflexivity|].
    inversion F1 as [|? ? [Hr1 _] _]; inversion F2 as [|? ? Hr2 _]; subst.
    unfold below_limit in Hr2; lia. }
  destruct o as [gen|gen|].
  - destruct P as (_ & _ & _ & Fb).
    rewrite (Hnil new Fn Fb); simpl; lia.
  - destruct P as (before & r & -> & _ & _ & _ & Fb & _).
    apply Forall_app in Fn; destruct Fn as [Fn _].
    rewrite (Hnil before Fn Fb); simpl; lia.
  - destruct P as (_ & Fb).
    rewrite (Hnil new Fn Fb); simpl; lia.
Qed.

End Growth.

Lemma X23_growth_bounded_witness :
  runnable scenario
  /\ exists r0 new w',
       simulation seeded_zeros seeded_counting scenario world0
       = Ok (r0 :: new, w')
       /\ growth_bounded (FrameRow.tech_complexity r0) (FrameRow.space_complexity r0)
            new.
Proof.
  split; [exact scenario_runnable|].
  destruct (X23_growth_bounded seeded_zeros seeded_counting scenario world0
              scenario_runnable) as (r0 & new & w' & E & _ & _ & G).
  exists r0, new, w'; split; [exact E|exact G].
Defined.

Lemma limit_1_runnable : runnable limit_1.
Proof.
  unfold runnable, limit_1; simpl.
  repeat split; try lia; unfold Qle; simpl; lia.
Qed.

Lemma X24_limit_at_most_1_witness :
  runnable limit_1 /\ Params.limit limit_1 <= 1
  /\ exists rows w',
       simulation seeded_zeros seeded_counting limit_1 world0
       = Ok (rows, w')
       /\ (1 <= length rows <= 2)%nat.
Proof.
  assert (Hl : Params.limit limit_1 <= 1) by (simpl; lia).
  split; [exact limit_1_runnable|]. split; [exact Hl|].
  exact (X24_limit_at_most_1 seeded_zeros seeded_counting limit_1 world0
           limit_1_runnable Hl).
Defined.

(** ** The parameter sweep *)

Section Sweep.

Variable np_words : Z -> nat -> N.
Variable rn_words : Z -> nat -> N.

Lemma rows_at_most_generations ps w :
  runnable ps -> 1 <= Params.generations ps ->
  exists rows w',
    simulation np_words rn_words ps w = Ok (rows, w')
    /\ 1 <= Z.of_nat (length rows) <= Params.generations ps.
Proof.
  intros Hr Hg.
  destruct (simulation_run_Ok np_words rn_words ps w Hr)
    as (s0 & r0 & o & s' & new & w' & h & E & _ & _ & _ & _ & _ & _ & P).
  exists (r0 :: new), w'.
  split; [unfold simulation; rewrite (bind_Ok _ _ _ _ _ E); reflexivity|].
  destruct P as (_ & _ & _ & _ & _ & P); cbn [length].
  destruct o as [gen|gen|].
  - destruct P as (_ & L & _); lia.
  - destruct P as (before & r & _ & L & _); lia.
  - destruct P as (L & _); lia.
Qed.

(** X25: every task [multi.py] builds is a valid configuration.  For each
    pair of the grid (all its values lie strictly between 0 and 1) and each
    seed below 1000000, the range [seed_gen] draws from, the run returns a
    frame of at least 1 and at most 10000 rows; no task can fail on its
    arguments. *)
Theorem X25_sweep_tasks_valid (eta lambda : Q) (seeds : list Z) (w : World)
    (He : In eta Multi.eta_param) (Hl : In lambda Multi.lambda_param)
    (Hs : Forall (fun seed => 0 <= seed < 1000000) seeds) :
  (0 < eta)%Q /\ (eta < 1)%Q /\ (0 < lambda)%Q /\ (lambda < 1)%Q
  /\ length (Multi.task_args eta lambda seeds) = length seeds
  /\ Forall (fun ps =>
               runnable ps
               /\ exists rows w',
                    simulation np_words rn_words ps w = Ok (rows, w')
                    /\ 1 <= Z.of_nat (length rows) <= 10000)
            (Multi.task_args eta lambda seeds).
Proof.
  assert (Hgrid : forall x, In x Multi.eta_param -> (0 < x)%Q /\ (x < 1)%Q).
  { intros x Hx; simpl in Hx.
    repeat (destruct Hx as [<-|Hx]; [split; reflexivity|]).
    contradiction. }
  destruct (Hgrid eta He) as [E0 E1].
  destruct (Hgrid lambda Hl) as [L0 L1].
  do 4 (split; [assumption|]).
  split; [apply length_map|].
  unfold Multi.task_args; apply Forall_map.
  eapply Forall_impl; [|exact Hs].
  intros seed Hseed; cbv beta in Hseed |- *.
  match goal with |- runnable ?ps /\ _ =>
    assert (Hr : runnable ps) end.
  { unfold runnable, Multi.s_length, Multi.t_length, Multi.p_tradeoff.
    cbn [Params.seed Params.s_length Params.t_length Params.p_tradeoff].
    repeat split; try lia; unfold Qle; simpl; lia. }
  split; [exact Hr|].
  apply (rows_at_most_generations _ w Hr); simpl.
  unfold Multi.generations; lia.
Qed.

End Sweep.

Lemma X25_sweep_tasks_valid_witness :
  In (1 # 100)%Q Multi.eta_param /\ In (99 # 100)%Q Multi.lambda_param
  /\ Forall (fun seed => 0 <= seed < 1000000) [7; 999999]
  /\ length (Multi.task_args (1 # 100) (99 # 100) [7; 999999]) = 2%nat.
Proof.
  assert (He : In (1 # 100)%Q Multi.eta_param) by (left; reflexivity).
  assert (Hl : In (99 # 100)%Q Multi.lambda_param)
    by (do 10 right; left; reflexivity).
  assert (Hs : Forall (fun seed => 0 <= seed < 1000000) [7; 999999])
    by (repeat constructor; lia).
  do 3 (split; [assumption|]).
  exact (proj1 (proj2 (proj2 (proj2 (proj2
           (X25_sweep_tasks_valid seeded_zeros seeded_counting _ _ _ world0
              He Hl Hs)))))).
Defined.
